(** * check_logs.py: a pre-commit guard, embedded and verified

    The script lists the files staged in git, refuses the commit when a
    protected path is staged, and then either scans the added lines of the
    staged diff for debug statements or, with [--fix], removes such lines
    from the working files and stages them again.

    The embedding follows the script function by function.  Its regular
    expressions are values of a small syntax, run by a backtracking matcher;
    its effects (log lines, git commands, file reads and writes) are
    recorded in a trace by a state monad that also carries [sys.exit] and
    exceptions; the working tree is a map from paths to texts, and git is
    a table of answers.  [CheckLogs] is the script where every pipe decodes
    and every existing file can be read and written; [Host] is the script
    where these operations can raise.  Both start once the command line is
    parsed.

    Text is Python [str] restricted to the code points 0..255: one [ascii]
    is one code point of that range.  Character classes ([\s], [\w], line
    boundaries of [str.splitlines], case folding) are the ones CPython uses
    on that range. *)

From Stdlib Require Import List Bool Arith NArith ZArith Lia Ascii String.
Import ListNotations.
Local Open Scope list_scope.
Local Open Scope bool_scope.


(** ** Characters and text *)

Module Text.

Definition text := list ascii.

Definition str (s : string) : text := list_ascii_of_string s.

Definition code (c : ascii) : N := N_of_ascii c.

Definition between (lo hi : N) (c : ascii) : bool :=
  (N.leb lo (code c) && N.leb (code c) hi)%N.

Fixpoint text_eqb (a b : text) : bool :=
  match a, b with
  | [], [] => true
  | x :: a', y :: b' => Ascii.eqb x y && text_eqb a' b'
  | _, _ => false
  end.

(** [Py_UNICODE_ISSPACE] below 256: TAB..CR, FS..US, space, NEL, NBSP. *)
Definition is_space (c : ascii) : bool :=
  between 9 13 c || between 28 32 c || N.eqb (code c) 133 || N.eqb (code c) 160.

(** Line boundaries of [str.splitlines] below 256: LF, VT, FF, CR, FS, GS,
    RS, NEL. *)
Definition is_linebreak (c : ascii) : bool :=
  between 10 13 c || between 28 30 c || N.eqb (code c) 133.

Definition is_newline (c : ascii) : bool := N.eqb (code c) 10.

Definition is_cr (c : ascii) : bool := N.eqb (code c) 13.

(** [\w] on [str]: alphanumeric ([isalpha], [isdecimal], [isdigit] or
    [isnumeric]) or underscore. *)
Definition is_word (c : ascii) : bool :=
  between 48 57 c || between 65 90 c || between 97 122 c || N.eqb (code c) 95
  || N.eqb (code c) 170 || N.eqb (code c) 178 || N.eqb (code c) 179
  || N.eqb (code c) 181 || between 185 186 c || between 188 190 c
  || between 192 214 c || between 216 246 c || between 248 255 c.

(** Simple lower-casing, as [re.IGNORECASE] applies it to one character. *)
Definition lower (c : ascii) : ascii :=
  if between 65 90 c || (between 192 222 c && negb (N.eqb (code c) 215))
  then ascii_of_N (code c + 32) else c.

Definition eq_ci (x c : ascii) : bool := Ascii.eqb (lower x) (lower c).

(** [s.startswith(p)] *)
Fixpoint startswith (s p : text) {struct p} : bool :=
  match p, s with
  | [], _ => true
  | c :: p', x :: s' => Ascii.eqb x c && startswith s' p'
  | _ :: _, [] => false
  end.

(** The same test up to case, used for the literals of a pattern. *)
Fixpoint startswith_ci (s p : text) {struct p} : bool :=
  match p, s with
  | [], _ => true
  | c :: p', x :: s' => eq_ci x c && startswith_ci s' p'
  | _ :: _, [] => false
  end.

(** [str.splitlines()]: [cur] is the current line, reversed. *)
Fixpoint splitlines_from (cur s : text) : list text :=
  match s with
  | [] => match cur with [] => [] | _ => [rev cur] end
  | c :: s' =>
      if is_cr c then
        match s' with
        | d :: s'' =>
            if is_newline d then rev cur :: splitlines_from [] s''
            else rev cur :: splitlines_from [] s'
        | [] => rev cur :: splitlines_from [] s'
        end
      else if is_linebreak c then rev cur :: splitlines_from [] s'
      else splitlines_from (c :: cur) s'
  end.

Definition splitlines (s : text) : list text := splitlines_from [] s.

Fixpoint lstrip (s : text) : text :=
  match s with
  | c :: s' => if is_space c then lstrip s' else s
  | [] => []
  end.

Definition rstrip (s : text) : text := rev (lstrip (rev s)).

(** [str.strip()] *)
Definition strip (s : text) : text := rstrip (lstrip s).

(** [sep.join(ls)] *)
Fixpoint join (sep : text) (ls : list text) : text :=
  match ls with
  | [] => []
  | [l] => l
  | l :: ls' => l ++ sep ++ join sep ls'
  end.

Definition NL : text := [ascii_of_N 10].

End Text.
Import Text.

(** ** Regular expressions

    The fragment of Python's [re] syntax that the two pattern catalogs use,
    matched by backtracking under [re.IGNORECASE].  A position in the
    subject is a pair: the text before it, reversed, and the text after
    it. *)

Module Re.

Inductive regex : Type :=
| Eps                        (* the empty pattern *)
| Lit (c : ascii)            (* a literal or escaped character *)
| Dot                        (* [.] *)
| Space                      (* [\s] *)
| Bol                        (* [^] *)
| WordB                      (* [\b] *)
| NotBehind (w : text)       (* [(?<!w)], [w] a literal string *)
| Cat (a b : regex)
| Alt (a b : regex)
| Star (a : regex).          (* [a*] *)

(** [a+] *)
Definition Plus (a : regex) : regex := Cat a (Star a).

Definition word_before (pre : text) : bool :=
  match pre with c :: _ => is_word c | [] => false end.

Definition word_after (s : text) : bool :=
  match s with c :: _ => is_word c | [] => false end.

Definition at_boundary (pre s : text) : bool :=
  xorb (word_before pre) (word_after s).

(** The literal [w] ends at the current position. *)
Definition behind (w pre : text) : bool := startswith_ci pre (rev w).

(** The loop of a starred pattern.  [body] matches one more round and
    calls the continuation it is given; a round that consumes nothing is
    not repeated, so [fuel] never needs to exceed the text that is left. *)
Fixpoint star_loop (body : text -> text -> (text -> text -> bool) -> bool)
  (k : text -> text -> bool) (fuel : nat) (pre s : text) {struct fuel}
  : bool :=
  match fuel with
  | O => k pre s
  | S fuel' =>
      body pre s
        (fun pre' s' =>
           (List.length s' <? List.length s)
           && star_loop body k fuel' pre' s')
      || k pre s
  end.

(** The matcher: [exec r pre s k] tries [r] at the position [(pre, s)] and
    hands every position where a match of [r] can end to [k], until [k]
    accepts one. *)
Fixpoint exec (r : regex) (pre s : text) (k : text -> text -> bool)
  {struct r} : bool :=
  match r with
  | Eps => k pre s
  | Lit c =>
      match s with
      | x :: s' => eq_ci x c && k (x :: pre) s'
      | [] => false
      end
  | Dot =>
      match s with
      | x :: s' => negb (is_newline x) && k (x :: pre) s'
      | [] => false
      end
  | Space =>
      match s with
      | x :: s' => is_space x && k (x :: pre) s'
      | [] => false
      end
  | Bol => match pre with [] => k pre s | _ :: _ => false end
  | WordB => at_boundary pre s && k pre s
  | NotBehind w => negb (behind w pre) && k pre s
  | Cat a b => exec a pre s (fun pre' s' => exec b pre' s' k)
  | Alt a b => exec a pre s k || exec b pre s k
  | Star a => star_loop (exec a) k (List.length s) pre s
  end.

(** [pattern.match(s)]: a match that starts at position 0. *)
Definition re_match (r : regex) (s : text) : bool :=
  exec r [] s (fun _ _ => true).

Fixpoint search_from (r : regex) (pre s : text) : bool :=
  exec r pre s (fun _ _ => true)
  || match s with
     | [] => false
     | c :: s' => search_from r (c :: pre) s'
     end.

(** [pattern.search(s)]: a match that starts anywhere. *)
Definition re_search (r : regex) (s : text) : bool := search_from r [] s.

(** A literal string. *)
Fixpoint lits (w : text) : regex :=
  match w with
  | [] => Eps
  | c :: w' => Cat (Lit c) (lits w')
  end.

(** What the matcher computes, said without the matcher:
    [Matches r pre w post] when [r] matches the text [w] found between
    [rev pre] and [post]. *)
Inductive Matches : regex -> text -> text -> text -> Prop :=
| M_Eps pre post : Matches Eps pre [] post
| M_Lit c x pre post :
    eq_ci x c = true -> Matches (Lit c) pre [x] post
| M_Dot x pre post :
    is_newline x = false -> Matches Dot pre [x] post
| M_Space x pre post :
    is_space x = true -> Matches Space pre [x] post
| M_Bol post : Matches Bol [] [] post
| M_WordB pre post :
    at_boundary pre post = true -> Matches WordB pre [] post
| M_NotBehind w pre post :
    behind w pre = false -> Matches (NotBehind w) pre [] post
| M_Cat a b pre w1 w2 post :
    Matches a pre w1 (w2 ++ post) ->
    Matches b (rev w1 ++ pre) w2 post ->
    Matches (Cat a b) pre (w1 ++ w2) post
| M_AltL a b pre w post :
    Matches a pre w post -> Matches (Alt a b) pre w post
| M_AltR a b pre w post :
    Matches b pre w post -> Matches (Alt a b) pre w post
| M_Star0 a pre post : Matches (Star a) pre [] post
| M_StarS a pre w1 w2 post :
    Matches a pre w1 (w2 ++ post) ->
    Matches (Star a) (rev w1 ++ pre) w2 post ->
    Matches (Star a) pre (w1 ++ w2) post.

End Re.

(** ** The script *)

Module CheckLogs.
Import Re.

Declare Scope regex_scope.
Delimit Scope regex_scope with re.
Infix "+>" := Cat (at level 60, right associativity) : regex_scope.

Definition PROTECTED_PATHS : list text :=
  [str "src/config/"; str "src/env/"].

(** [LOG_PATTERNS], one entry per raw string of the source. *)
Definition LOG_PATTERNS : list regex :=
  [ (* ^\+.*console\.log *)
    (Bol +> Lit "+" +> Star Dot +> lits (str "console.log"))%re;
    (* ^\+.*\bprint\s*\( *)
    (Bol +> Lit "+" +> Star Dot +> WordB +> lits (str "print") +> Star Space
       +> Lit "(")%re;
    (* ^\+.*System\.out\.println *)
    (Bol +> Lit "+" +> Star Dot +> lits (str "System.out.println"))%re;
    (* ^\+.*\becho\s+ *)
    (Bol +> Lit "+" +> Star Dot +> WordB +> lits (str "echo") +> Plus Space)%re;
    (* ^\+.*(?<!logger\.)\blog\s*\( *)
    (Bol +> Lit "+" +> Star Dot +> NotBehind (str "logger.") +> WordB
       +> lits (str "log") +> Star Space +> Lit "(")%re ].

(** [FIX_PATTERNS] *)
Definition FIX_PATTERNS : list regex :=
  [ (* ^\s*console\.log.* *)
    (Bol +> Star Space +> lits (str "console.log") +> Star Dot)%re;
    (* ^\s*print\s*\(.* *)
    (Bol +> Star Space +> lits (str "print") +> Star Space +> Lit "("
       +> Star Dot)%re;
    (* ^\s*System\.out\.println.* *)
    (Bol +> Star Space +> lits (str "System.out.println") +> Star Dot)%re;
    (* ^\s*echo\s+.* *)
    (Bol +> Star Space +> lits (str "echo") +> Plus Space +> Star Dot)%re;
    (* ^\s*(?<!logger\.)log\s*\(.* *)
    (Bol +> Star Space +> NotBehind (str "logger.") +> lits (str "log")
       +> Star Space +> Lit "(" +> Star Dot)%re ].

(** ['|'.join(patterns)], compiled: the alternation of the patterns. *)
Fixpoint join_alt (ps : list regex) : regex :=
  match ps with
  | [] => Eps
  | [p] => p
  | p :: ps' => Alt p (join_alt ps')
  end.

(** *** The world the script runs in *)

(** What [subprocess.run] gives back: the exit status of the child, which
    the script never looks at, and its captured standard output. *)
Record completed := Completed { returncode : Z; stdout : text }.

(** The git side is fixed during one run of the script: whether the
    executable can be started at all, and what each command line answers. *)
Record env := Env {
  git_found : bool;
  git : list text -> completed
}.

(** The lines the script logs.  Their wording is not modelled, their
    arguments are. *)
Inductive message :=
| CommitBlocked                          (* "Commit blocked! Protected files ..." *)
| Bullet (f : text)                      (* " * {f}" *)
| MustNotBeChanged                       (* "These files/folders are protected ..." *)
| LogDetected (file line : text)         (* "Log/print detected in {file}: {line}" *)
| Removed (stripped file : text)         (* "Removed: {line.strip()} from {file}" *)
| FixedAndRestaged (files : list text)   (* "Fixed and re-staged: ..." *)
| NoChangesNeeded                        (* "No changes needed." *)
| NoStagedFiles                          (* "No staged files to check." *)
| PleaseRemoveLogs                       (* "Please remove debug logs before committing." *)
| NoUnwantedLogs.                        (* "No unwanted logs found." *)

(** What the script does to the outside, in the order it does it. *)
Inductive event :=
| Info (m : message)                     (* log.info *)
| Subprocess (argv : list text)          (* subprocess.run *)
| ReadText (path : text)                 (* Path.read_text *)
| WriteText (path content : text).       (* Path.write_text *)

(** The working tree maps a path to the text of the file there, if one
    exists.  In [CheckLogs] a path that exists is a text file that can be
    read and written; in [Host] it may also be a directory or a file that
    refuses, which the host says. *)
Definition tree := text -> option text.

Definition write (p content : text) (t : tree) : tree :=
  fun q => if text_eqb q p then Some content else t q.

Record state := State { fs : tree; trace : list event }.

Inductive exn :=
| FileNotFoundError    (* the executable, or the file to read, is not there *)
| IsADirectoryError    (* the path to read is a directory *)
| UnicodeDecodeError   (* the bytes to decode are not text in the encoding *)
| PermissionError.     (* the file may not be opened *)

Inductive result (A : Type) :=
| Ok (a : A)
| SystemExit (code : Z)
| Raised (e : exn).
Arguments Ok {A} a.
Arguments SystemExit {A} code.
Arguments Raised {A} e.

Definition M (A : Type) : Type := state -> result A * state.

Definition ret {A} (a : A) : M A := fun s => (Ok a, s).

Definition bind {A B} (c : M A) (f : A -> M B) : M B :=
  fun s =>
    match c s with
    | (Ok a, s') => f a s'
    | (SystemExit n, s') => (SystemExit n, s')
    | (Raised e, s') => (Raised e, s')
    end.

Notation "x <- c ;; k" := (bind c (fun x => k))
  (at level 61, c at next level, right associativity).
Notation "c ;; k" := (bind c (fun _ => k))
  (at level 61, right associativity).

Definition emit (e : event) : M unit :=
  fun s => (Ok tt, {| fs := fs s; trace := trace s ++ [e] |}).

Definition info (m : message) : M unit := emit (Info m).

Definition sys_exit {A} (code : Z) : M A := fun s => (SystemExit code, s).

Definition raise {A} (e : exn) : M A := fun s => (Raised e, s).

Definition path_exists (p : text) : M bool :=
  fun s => (Ok (match fs s p with Some _ => true | None => false end), s).

(** [Path.read_text] where every file that exists can be read as text;
    [Host.read_text] is the general case. *)
Definition read_text (p : text) : M text :=
  fun s =>
    match fs s p with
    | Some t => (Ok t, {| fs := fs s; trace := trace s ++ [ReadText p] |})
    | None => (Raised FileNotFoundError, s)
    end.

(** [Path.write_text] where every file can be written; [Host.write_text]
    is the general case. *)
Definition write_text (p content : text) : M unit :=
  fun s =>
    (Ok tt, {| fs := write p content (fs s);
               trace := trace s ++ [WriteText p content] |}).

Fixpoint for_each {A} (xs : list A) (body : A -> M unit) : M unit :=
  match xs with
  | [] => ret tt
  | x :: xs' => body x ;; for_each xs' body
  end.

Section Script.

Variable E : env.

(** [subprocess.run] where what the command prints can always be decoded;
    [Host.subprocess_run_text] is the general case. *)
Definition subprocess_run (argv : list text) : M completed :=
  if git_found E then emit (Subprocess argv) ;; ret (git E argv)
  else raise FileNotFoundError.

Definition git_diff_cached (args : list text) : list text :=
  [str "git"; str "diff"; str "--cached"] ++ args.

Definition get_staged_files : M (list text) :=
  result <- subprocess_run (git_diff_cached [str "--name-only"]) ;;
  ret (splitlines (strip (stdout result))).

Definition is_protected (file : text) : bool :=
  existsb (fun path => startswith file path) PROTECTED_PATHS.

Definition block_if_protected (files : list text) : M unit :=
  let protected := filter is_protected files in
  match protected with
  | [] => ret tt
  | _ :: _ =>
      info CommitBlocked ;;
      for_each protected (fun f => info (Bullet f)) ;;
      info MustNotBeChanged ;;
      sys_exit 1
  end.

(** The added lines of a diff: the comprehension of [check_for_logs]. *)
Definition added_lines (diff : text) : list text :=
  filter (fun line => startswith line (str "+")
                      && negb (startswith line (str "+++")))
         (splitlines diff).

(** The inner loop of [check_for_logs]. *)
Fixpoint report_lines (pattern : regex) (file : text) (lines : list text)
  (has_logs : bool) : M bool :=
  match lines with
  | [] => ret has_logs
  | line :: lines' =>
      if re_search pattern line then
        info (LogDetected file line) ;;
        report_lines pattern file lines' true
      else report_lines pattern file lines' has_logs
  end.

(** The outer loop of [check_for_logs]. *)
Fixpoint scan_files (pattern : regex) (files : list text) (has_logs : bool)
  : M bool :=
  match files with
  | [] => ret has_logs
  | file :: files' =>
      if is_protected file then scan_files pattern files' has_logs
      else
        present <- path_exists file ;;
        if negb present then scan_files pattern files' has_logs
        else
          result <- subprocess_run (git_diff_cached [file]) ;;
          has_logs' <- report_lines pattern file
                         (added_lines (stdout result)) has_logs ;;
          scan_files pattern files' has_logs'
  end.

Definition check_for_logs (files : list text) : M bool :=
  scan_files (join_alt LOG_PATTERNS) files false.

(** [any(p.match(line) for p in fix_patterns)] *)
Definition fix_match (line : text) : bool :=
  existsb (fun p => re_match p line) FIX_PATTERNS.

(** The inner loop of [auto_fix_logs]. *)
Fixpoint fix_lines (file : text) (lines new_lines : list text)
  (modified : bool) : M (list text * bool) :=
  match lines with
  | [] => ret (new_lines, modified)
  | line :: lines' =>
      if fix_match line then
        info (Removed (strip line) file) ;;
        fix_lines file lines' new_lines true
      else fix_lines file lines' (new_lines ++ [line]) modified
  end.

(** The outer loop of [auto_fix_logs]. *)
Fixpoint fix_files (files fixed_files : list text) : M (list text) :=
  match files with
  | [] => ret fixed_files
  | file :: files' =>
      if is_protected file then fix_files files' fixed_files
      else
        present <- path_exists file ;;
        if negb present then fix_files files' fixed_files
        else
          content <- read_text file ;;
          r <- fix_lines file (splitlines content) [] false ;;
          let '(new_lines, modified) := r in
          if modified then
            write_text file (join NL new_lines ++ NL) ;;
            fix_files files' (fixed_files ++ [file])
          else fix_files files' fixed_files
  end.

Definition auto_fix_logs (files : list text) : M unit :=
  fixed_files <- fix_files files [] ;;
  match fixed_files with
  | _ :: _ =>
      subprocess_run ([str "git"; str "add"] ++ fixed_files) ;;
      info (FixedAndRestaged fixed_files)
  | [] => info NoChangesNeeded
  end.

(** The body under [if __name__ == "__main__"] from the staged-file query
    on, the arguments being parsed; [fix_mode] is [args.fix]. *)
Definition main (fix_mode : bool) : M unit :=
  staged_files <- get_staged_files ;;
  match staged_files with
  | [] => info NoStagedFiles ;; sys_exit 0
  | _ :: _ =>
      block_if_protected staged_files ;;
      if fix_mode then auto_fix_logs staged_files ;; sys_exit 0
      else
        has_logs <- check_for_logs staged_files ;;
        if has_logs then info PleaseRemoveLogs ;; sys_exit 1
        else info NoUnwantedLogs
  end.

End Script.

(** How the process ends: with an exit status, or on an exception that
    nothing caught (the interpreter then prints a traceback and the status
    is 1). *)
Inductive outcome :=
| Exited (code : Z)
| Uncaught (e : exn).

Definition exit_status (o : outcome) : Z :=
  match o with Exited n => n | Uncaught _ => 1%Z end.

(** One run of the script on a working tree, where no pipe and no file
    refuses; [Host.run] is the general case. *)
Definition run (E : env) (fix_mode : bool) (t : tree) : outcome * state :=
  match main E fix_mode {| fs := t; trace := [] |} with
  | (Ok _, s) => (Exited 0, s)
  | (SystemExit n, s) => (Exited n, s)
  | (Raised e, s) => (Uncaught e, s)
  end.

End CheckLogs.

(** ** What the patterns look for, said on the text itself *)

Module Forms.
Import Re.

(** Optional white space, then an opening parenthesis. *)
Definition opens_call (s : text) : bool :=
  match lstrip s with
  | c :: _ => Ascii.eqb c "("
  | [] => false
  end.

Definition space_next (s : text) : bool :=
  match s with
  | c :: _ => is_space c
  | [] => false
  end.

(** [name], in any case, then the opening of a call. *)
Definition calls (name rest : text) : bool :=
  startswith_ci rest name && opens_call (skipn (List.length name) rest).

Definition console_log_at (rest : text) : bool :=
  startswith_ci rest (str "console.log").

Definition println_at (rest : text) : bool :=
  startswith_ci rest (str "System.out.println").

(** [echo], in any case, then white space. *)
Definition echo_at (rest : text) : bool :=
  startswith_ci rest (str "echo") && space_next (skipn 4 rest).

Definition endswith_ci (s suffix : text) : bool :=
  startswith_ci (rev s) (rev suffix).

(** A word starts or ends between [before] and [rest]. *)
Definition word_edge (before rest : text) : bool :=
  at_boundary (rev before) rest.

(** A [log(] call whose name starts here, qualified or not. *)
Definition log_call_at (before rest : text) : bool :=
  word_edge before rest && calls (str "log") rest.

(** One of the four forms other than a [log(] call starts at the position
    between [before] and [rest]. *)
Definition other_form_at (before rest : text) : bool :=
  console_log_at rest
  || (word_edge before rest && calls (str "print") rest)
  || println_at rest
  || (word_edge before rest && echo_at rest).

(** A [log(] call that [logger.] does not immediately precede. *)
Definition bare_log_at (before rest : text) : bool :=
  negb (endswith_ci before (str "logger.")) && log_call_at before rest.

(** A debug statement, as scan mode understands one, starts at the position
    between [before] and [rest]. *)
Definition debug_form_at (before rest : text) : bool :=
  other_form_at before rest || bare_log_at before rest.

(** A debug statement, as fix mode understands one, starts the text. *)
Definition debug_statement (body : text) : bool :=
  console_log_at body
  || calls (str "print") body
  || println_at body
  || echo_at body
  || calls (str "log") body.

End Forms.

(** ** Vocabulary of the proofs *)

Module Aux.
Import Re CheckLogs.
Local Open Scope regex_scope.

(** The continuation that accepts every end position. *)
Definition ktrue : text -> text -> bool := fun _ _ => true.

Definition accepts_more (k1 k2 : text -> text -> bool) : Prop :=
  forall p s, k1 p s = true -> k2 p s = true.

Definition not_newline (c : ascii) : bool := negb (is_newline c).

Definition no_linebreak (l : text) : bool :=
  forallb (fun c => negb (is_linebreak c)) l.

(** What stands behind the leading white space of a fix pattern. *)
Definition fix_tails : list regex :=
  [ lits (str "console.log") +> Star Dot;
    lits (str "print") +> Star Space +> Lit "(" +> Star Dot;
    lits (str "System.out.println") +> Star Dot;
    lits (str "echo") +> Plus Space +> Star Dot;
    NotBehind (str "logger.") +> lits (str "log") +> Star Space +> Lit "("
      +> Star Dot ].

(** What stands behind [^\+.*] in a scan pattern. *)
Definition scan_tails : list regex :=
  [ lits (str "console.log");
    WordB +> lits (str "print") +> Star Space +> Lit "(";
    lits (str "System.out.println");
    WordB +> lits (str "echo") +> Plus Space;
    NotBehind (str "logger.") +> WordB +> lits (str "log") +> Star Space
      +> Lit "(" ].

End Aux.
Import Aux.

(** ** What a run does, said without the monad *)

Module Describe.
Import Re CheckLogs.

(** The state a run starts in: the working tree, and nothing done yet. *)
Definition start (t : tree) : state := {| fs := t; trace := [] |}.

Definition name_only : list text := git_diff_cached [str "--name-only"].

(** The staged file set: what [get_staged_files] returns when git runs. *)
Definition staged (E : env) : list text :=
  splitlines (strip (stdout (git E name_only))).

Definition present (t : tree) (p : text) : bool :=
  match t p with Some _ => true | None => false end.

(** The files a pass looks at: not protected, and there. *)
Definition visited (t : tree) (file : text) : bool :=
  negb (is_protected file) && present t file.

Definition staged_diff (E : env) (file : text) : text :=
  stdout (git E (git_diff_cached [file])).

(** The added lines of [file] that the combined pattern finds a match in. *)
Definition flagged_lines (E : env) (file : text) : list text :=
  filter (re_search (join_alt LOG_PATTERNS)) (added_lines (staged_diff E file)).

Definition scan_events (E : env) (t : tree) (file : text) : list event :=
  if visited t file then
    Subprocess (git_diff_cached [file])
    :: map (fun line => Info (LogDetected file line)) (flagged_lines E file)
  else [].

Definition nonempty {A} (l : list A) : bool :=
  match l with [] => false | _ :: _ => true end.

Definition any_flagged (E : env) (t : tree) (files : list text) : bool :=
  existsb (fun f => visited t f && nonempty (flagged_lines E f)) files.

Definition dropped_lines (content : text) : list text :=
  filter fix_match (splitlines content).

Definition kept_lines (content : text) : list text :=
  filter (fun line => negb (fix_match line)) (splitlines content).

(** The text a file is rewritten to, if it is rewritten. *)
Definition rewritten (content : text) : option text :=
  if nonempty (dropped_lines content)
  then Some (join NL (kept_lines content) ++ NL)
  else None.

(** The text of a file after a fix pass. *)
Definition fix_text (content : text) : text :=
  match rewritten content with
  | Some c' => c'
  | None => content
  end.

(** The fix pass on one file: the tree after it, what it does, and the
    file if it was fixed. *)
Definition fix_one (file : text) (t : tree) : tree :=
  if is_protected file then t
  else match t file with
       | Some c =>
           match rewritten c with
           | Some c' => write file c' t
           | None => t
           end
       | None => t
       end.

Definition fix_events (file : text) (t : tree) : list event :=
  if is_protected file then []
  else match t file with
       | Some c =>
           ReadText file
           :: map (fun line => Info (Removed (strip line) file))
                (dropped_lines c)
           ++ match rewritten c with
              | Some c' => [WriteText file c']
              | None => []
              end
       | None => []
       end.

Definition fixed_now (file : text) (t : tree) : list text :=
  if is_protected file then []
  else match t file with
       | Some c =>
           match rewritten c with
           | Some _ => [file]
           | None => []
           end
       | None => []
       end.

Fixpoint fix_tree (files : list text) (t : tree) : tree :=
  match files with
  | [] => t
  | f :: files' => fix_tree files' (fix_one f t)
  end.

Fixpoint fix_trace (files : list text) (t : tree) : list event :=
  match files with
  | [] => []
  | f :: files' => fix_events f t ++ fix_trace files' (fix_one f t)
  end.

Fixpoint fixed_list (files : list text) (t : tree) : list text :=
  match files with
  | [] => []
  | f :: files' => fixed_now f t ++ fixed_list files' (fix_one f t)
  end.

Definition git_add (files : list text) : list text :=
  [str "git"; str "add"] ++ files.

(** How [auto_fix_logs] ends. *)
Definition restage_events (fixed : list text) : list event :=
  match fixed with
  | [] => [Info NoChangesNeeded]
  | _ :: _ => [Subprocess (git_add fixed); Info (FixedAndRestaged fixed)]
  end.

(** No line of the text matches a fix pattern. *)
Definition clean (content : text) : bool :=
  negb (existsb fix_match (splitlines content)).

(** The event is about the file: it names it as the file reported, read,
    written, diffed or staged. *)
Definition concerns (file : text) (e : event) : bool :=
  match e with
  | Info (Bullet f) => text_eqb f file
  | Info (LogDetected f _) => text_eqb f file
  | Info (Removed _ f) => text_eqb f file
  | Info (FixedAndRestaged fs) => existsb (fun f => text_eqb f file) fs
  | Info _ => false
  | Subprocess argv => existsb (fun a => text_eqb a file) argv
  | ReadText p => text_eqb p file
  | WriteText p _ => text_eqb p file
  end.

(** None of the events is about the file. *)
Definition unconcerned (file : text) (evs : list event) : bool :=
  forallb (fun e => negb (concerns file e)) evs.

End Describe.
Import Describe.

(** ** Sample repositories *)

Module Examples.
Import Re CheckLogs.

(** A text made of the given lines, each one ended by a newline. *)
Definition lines (ls : list string) : text := join NL (map str ls) ++ NL.

(** A git that starts, answers the staged-file query with [names] and exit
    status [status], and answers the diff of a file with [diff] of it. *)
Definition repo (status : Z) (names : text) (diff : text -> text) : env :=
  {| git_found := true;
     git := fun argv =>
       match argv with
       | [_; sub; _; a] =>
           if text_eqb sub (str "diff") then
             if text_eqb a (str "--name-only") then Completed status names
             else Completed 0 (diff a)
           else Completed 0 []
       | _ => Completed 0 []
       end |}.

(** A machine on which git is not installed. *)
Definition no_git : env :=
  {| git_found := false; git := fun _ => Completed 0 [] |}.

Definition tree_of (files : list (text * text)) : tree :=
  fun p =>
    match find (fun e => text_eqb (fst e) p) files with
    | Some e => Some (snd e)
    | None => None
    end.

(** [app.js] and [util.py] are staged, each with debug output added. *)
Definition app_diff : text :=
  lines [ "diff --git a/app.js b/app.js";
          "--- a/app.js";
          "+++ b/app.js";
          "@@ -1,2 +1,4 @@";
          " function f(x) {";
          "+  console.log('debug')";
          "+  logger.log('kept')";
          " }" ]%string.

Definition util_diff : text :=
  lines [ "diff --git a/util.py b/util.py";
          "--- a/util.py";
          "+++ b/util.py";
          "@@ -1 +1,3 @@";
          " import os";
          "+print ('x')";
          "+log('y')" ]%string.

Definition dirty_repo : env :=
  repo 0 (lines ["app.js"; "util.py"; "gone.txt"]%string)
    (fun f => if text_eqb f (str "app.js") then app_diff
              else if text_eqb f (str "util.py") then util_diff
              else []).

Definition dirty_tree : tree :=
  tree_of
    [ (str "app.js",
       lines ["function f(x) {"; "  console.log('debug')";
              "  logger.log('kept')"; "}"]%string);
      (str "util.py",
       lines ["import os"; "print ('x')"; "log('y')"]%string);
      (str "src/config/settings.yaml", lines ["echo on"]%string) ].

(** A protected file is staged next to [app.js]. *)
Definition protected_repo : env :=
  repo 0 (lines ["app.js"; "src/config/settings.yaml"]%string)
    (fun _ => app_diff).

(** Nothing is staged. *)
Definition idle_repo : env := repo 0 [] (fun _ => []).

(** The query fails, as it does outside a repository: git writes to its
    standard error only and leaves with status 128. *)
Definition failing_repo : env := repo 128 [] (fun _ => []).

(** A diff that adds a line starting with an increment. *)
Definition increment_diff : text :=
  lines [ "diff --git a/tick.js b/tick.js";
          "--- a/tick.js";
          "+++ b/tick.js";
          "@@ -1 +1,2 @@";
          " let count = 0";
          "+++count; console.log(count)" ]%string.

Definition increment_repo : env :=
  repo 0 (lines ["tick.js"]%string) (fun _ => increment_diff).

Definition increment_tree : tree :=
  tree_of [(str "tick.js",
            lines ["let count = 0"; "++count; console.log(count)"]%string)].



(** A staged file that holds nothing but debug statements. *)
Definition debug_only_repo : env :=
  repo 0 (lines ["trace.sh"]%string) (fun _ => []).


End Examples.
Import Examples.

(** ** Notions the statements below are phrased with *)

Module Notions.
Import Re CheckLogs.

(** The same git with every exit status replaced by [rc]. *)
Definition with_status (rc : Z) (E : env) : env :=
  {| git_found := git_found E;
     git := fun argv => Completed rc (stdout (git E argv)) |}.

(** The staged-file query failed: git could not be started, or it left with
    a status other than 0. *)
Definition query_failed (E : env) : Prop :=
  git_found E = false \/ returncode (git E name_only) <> 0%Z.

(** The marker line of a unified diff's file header: three plus signs, a
    space, and the name of the new file. *)
Definition file_header_marker (line : text) : bool :=
  startswith line (str "+++ ").

(** Scan mode reports [line] for [file] during a scan of [files]. *)
Definition flags (E : env) (t : tree) (files : list text)
  (file line : text) : Prop :=
  In (Info (LogDetected file line))
     (trace (snd (check_for_logs E files (start t)))).

End Notions.
Import Notions.

(** ** Further notions and samples *)

Module Further.
Import Re CheckLogs.
Local Open Scope regex_scope.

(** The fifth fix pattern with its look-behind left out:
    [^\s*log\s*\(.*]. *)
Definition fix_log_plain : regex :=
  Bol +> Star Space +> lits (str "log") +> Star Space +> Lit "(" +> Star Dot.

(** The command is a diff of the index: the staged-file query or the diff
    of one file. *)
Definition is_diff_command (argv : list text) : bool :=
  match argv with
  | a :: b :: c :: _ =>
      text_eqb a (str "git") && text_eqb b (str "diff")
      && text_eqb c (str "--cached")
  | _ => false
  end.

(** The event neither touches a file nor stages one. *)
Definition read_only (e : event) : bool :=
  match e with
  | Info _ => true
  | Subprocess argv => is_diff_command argv
  | ReadText _ => false
  | WriteText _ _ => false
  end.

(** The commands of a trace, in order. *)
Definition commands (tr : list event) : list (list text) :=
  flat_map (fun e => match e with Subprocess argv => [argv] | _ => [] end) tr.

(** Every line boundary of the text is a newline character. *)
Definition newline_only (c : text) : bool :=
  forallb (fun ch => negb (is_linebreak ch) || is_newline ch) c.

(** A file with old Mac and Windows line ends and a form feed. *)
Definition mixed_ends_tree : tree :=
  tree_of
    [ (str "trace.sh",
       str "echo start" ++ [ascii_of_N 13; ascii_of_N 10]
       ++ str "ls" ++ [ascii_of_N 12] ++ str "pwd" ++ [ascii_of_N 13]
       ++ str "date") ].

End Further.
Import Further.


(** ** The script on a host where operations can fail

    [CheckLogs] is the script where every pipe can be decoded and every
    file that exists can be read and written.  Here the same functions are
    written over a host that may refuse: the output of a captured command
    may not be text in the expected encoding, a path that exists may not be
    readable as text (a directory, bytes that are not UTF-8), and a file
    may not be writable.  The script catches nothing, so each refusal ends
    the run. *)

Module Host.
Import Re CheckLogs.

Record host := Build {
  git_side : env;                        (* whether git starts, and its answers *)
  undecodable : list text -> bool;       (* decoding the captured output raises *)
  read_failure : text -> option exn;     (* [read_text] of the path raises *)
  write_failure : text -> option exn     (* [write_text] of the path raises *)
}.


Section Script.

Variable H : host.

(** [subprocess.run(argv, stdout=subprocess.PIPE, text=True)]: the command
    runs, then what it printed is decoded. *)
Definition subprocess_run_text (argv : list text) : M completed :=
  if git_found (git_side H) then
    emit (Subprocess argv) ;;
    if undecodable H argv then raise UnicodeDecodeError
    else ret (git (git_side H) argv)
  else raise FileNotFoundError.

(** [subprocess.run(argv)]: nothing is captured, so nothing is decoded. *)
Definition subprocess_run (argv : list text) : M completed :=
  CheckLogs.subprocess_run (git_side H) argv.

Definition read_text (p : text) : M text :=
  fun s =>
    match fs s p with
    | Some t =>
        match read_failure H p with
        | Some e => (Raised e, s)
        | None =>
            (Ok t, {| fs := fs s; trace := trace s ++ [ReadText p] |})
        end
    | None => (Raised FileNotFoundError, s)
    end.

Definition write_text (p content : text) : M unit :=
  fun s =>
    match write_failure H p with
    | Some e => (Raised e, s)
    | None => CheckLogs.write_text p content s
    end.

Definition get_staged_files : M (list text) :=
  result <- subprocess_run_text (git_diff_cached [str "--name-only"]) ;;
  ret (splitlines (strip (stdout result))).

(** The outer loop of [check_for_logs]. *)
Fixpoint scan_files (pattern : regex) (files : list text) (has_logs : bool)
  : M bool :=
  match files with
  | [] => ret has_logs
  | file :: files' =>
      if is_protected file then scan_files pattern files' has_logs
      else
        present <- path_exists file ;;
        if negb present then scan_files pattern files' has_logs
        else
          result <- subprocess_run_text (git_diff_cached [file]) ;;
          has_logs' <- report_lines pattern file
                         (added_lines (stdout result)) has_logs ;;
          scan_files pattern files' has_logs'
  end.

Definition check_for_logs (files : list text) : M bool :=
  scan_files (join_alt LOG_PATTERNS) files false.

(** The outer loop of [auto_fix_logs]. *)
Fixpoint fix_files (files fixed_files : list text) : M (list text) :=
  match files with
  | [] => ret fixed_files
  | file :: files' =>
      if is_protected file then fix_files files' fixed_files
      else
        present <- path_exists file ;;
        if negb present then fix_files files' fixed_files
        else
          content <- read_text file ;;
          r <- fix_lines file (splitlines content) [] false ;;
          let '(new_lines, modified) := r in
          if modified then
            write_text file (join NL new_lines ++ NL) ;;
            fix_files files' (fixed_files ++ [file])
          else fix_files files' fixed_files
  end.

Definition auto_fix_logs (files : list text) : M unit :=
  fixed_files <- fix_files files [] ;;
  match fixed_files with
  | _ :: _ =>
      subprocess_run ([str "git"; str "add"] ++ fixed_files) ;;
      info (FixedAndRestaged fixed_files)
  | [] => info NoChangesNeeded
  end.

(** The body under [if __name__ == "__main__"] from the staged-file query
    on; [fix_mode] is [args.fix]. *)
Definition main (fix_mode : bool) : M unit :=
  staged_files <- get_staged_files ;;
  match staged_files with
  | [] => info NoStagedFiles ;; sys_exit 0
  | _ :: _ =>
      block_if_protected staged_files ;;
      if fix_mode then auto_fix_logs staged_files ;; sys_exit 0
      else
        has_logs <- check_for_logs staged_files ;;
        if has_logs then info PleaseRemoveLogs ;; sys_exit 1
        else info NoUnwantedLogs
  end.

End Script.

(** One run of the script on a host and a working tree. *)
Definition run (H : host) (fix_mode : bool) (t : tree) : outcome * state :=
  match main H fix_mode {| fs := t; trace := [] |} with
  | (Ok _, s) => (Exited 0, s)
  | (SystemExit n, s) => (Exited n, s)
  | (Raised e, s) => (Uncaught e, s)
  end.

(** Scan mode reports [line] for [file] during a scan of [files]. *)
Definition flags (H : host) (t : tree) (files : list text)
  (file line : text) : Prop :=
  In (Info (LogDetected file line))
     (trace (snd (check_for_logs H files (start t)))).

(** Scan mode comes to a file whose staged diff does not decode. *)
Definition scan_refused (H : host) (t : tree) (files : list text) : bool :=
  existsb (fun f => visited t f && undecodable H (git_diff_cached [f])) files.

(** Fix mode cannot read the file, or has a line to drop from it and cannot
    write it. *)
Definition refuses_fix (H : host) (t : tree) (f : text) : bool :=
  negb (is_protected f)
  && match t f with
     | Some c =>
         match read_failure H f with
         | Some _ => true
         | None =>
             match write_failure H f with
             | Some _ => nonempty (dropped_lines c)
             | None => false
             end
         end
     | None => false
     end.

Definition fix_refused (H : host) (t : tree) (files : list text) : bool :=
  existsb (refuses_fix H t) files.









End Host.

(** * The matcher computes the declarative semantics *)

Section MatcherFacts.
Import Re.


Lemma star_loop_mono body k1 k2 fuel :
  (forall pre s j1 j2, accepts_more j1 j2 ->
      body pre s j1 = true -> body pre s j2 = true) ->
  accepts_more k1 k2 ->
  accepts_more (star_loop body k1 fuel) (star_loop body k2 fuel).
Proof.
  intros Hbody Hk. induction fuel as [|n IH]; intros p s; simpl.
  - apply Hk.
  - rewrite !orb_true_iff. intros [H|H]; [left|right; now apply Hk].
    eapply Hbody; [|exact H]. intros p' s'. simpl.
    rewrite !andb_true_iff. intros [H1 H2]. split; [exact H1|now apply IH].
Qed.

Lemma exec_mono r : forall pre s k1 k2,
  accepts_more k1 k2 -> exec r pre s k1 = true -> exec r pre s k2 = true.
Proof.
  induction r; intros pre s k1 k2 Hk; simpl;
    try (destruct s as [|x s']; [discriminate|]);
    rewrite ?andb_true_iff, ?orb_true_iff.
  - apply Hk.
  - intros [? ?]; split; [assumption|now apply Hk].
  - intros [? ?]; split; [assumption|now apply Hk].
  - intros [? ?]; split; [assumption|now apply Hk].
  - destruct pre; [apply Hk|discriminate].
  - intros [? ?]; split; [assumption|now apply Hk].
  - intros [? ?]; split; [assumption|now apply Hk].
  - apply IHr1. intros p' s'. now apply IHr2.
  - intros [H|H]; [left; eapply IHr1|right; eapply IHr2]; eassumption.
  - apply star_loop_mono; [exact IHr|exact Hk].
Qed.

Lemma star_loop_more_fuel body k :
  (forall pre s j1 j2, accepts_more j1 j2 ->
      body pre s j1 = true -> body pre s j2 = true) ->
  forall n m pre s, n <= m ->
    star_loop body k n pre s = true -> star_loop body k m pre s = true.
Proof.
  intros Hbody. induction n as [|n IH]; intros m pre s Hle.
  - simpl. intros H. destruct m; simpl; [exact H|].
    rewrite H. apply orb_true_r.
  - destruct m as [|m]; [lia|]. simpl. rewrite !orb_true_iff.
    intros [H|H]; [left|now right].
    eapply Hbody; [|exact H]. intros p' s'. simpl.
    rewrite !andb_true_iff. intros [H1 H2]. split; [exact H1|].
    apply IH; [lia|exact H2].
Qed.

Lemma exec_complete r pre w post :
  Matches r pre w post ->
  forall k, k (rev w ++ pre) post = true -> exec r pre (w ++ post) k = true.
Proof.
  induction 1; intros k Hk; simpl in *.
  - exact Hk.
  - now rewrite H.
  - now rewrite H.
  - now rewrite H.
  - exact Hk.
  - now rewrite H.
  - now rewrite H.
  - rewrite <- app_assoc. apply IHMatches1. apply IHMatches2.
    now rewrite rev_app_distr, <- app_assoc in Hk.
  - rewrite IHMatches; [reflexivity|exact Hk].
  - rewrite IHMatches; [apply orb_true_r|exact Hk].
  - destruct (List.length post); simpl; [exact Hk|].
    rewrite Hk. apply orb_true_r.
  - destruct w1 as [|x w1].
    + simpl in *. apply IHMatches2. exact Hk.
    + rewrite <- app_assoc. simpl List.length. simpl star_loop.
      apply orb_true_iff. left. apply (IHMatches1).
      apply andb_true_iff. split.
      * apply Nat.ltb_lt. simpl. rewrite !length_app. simpl. lia.
      * apply star_loop_more_fuel
          with (n := List.length (w2 ++ post)).
        -- intros; eapply exec_mono; eassumption.
        -- rewrite !length_app. lia.
        -- apply (IHMatches2 k).
           now rewrite rev_app_distr, <- app_assoc in Hk.
Qed.

Lemma star_loop_sound a k :
  (forall pre s j, exec a pre s j = true ->
     exists w post, s = w ++ post /\ Matches a pre w post
                    /\ j (rev w ++ pre) post = true) ->
  forall fuel pre s, star_loop (exec a) k fuel pre s = true ->
    exists w post, s = w ++ post /\ Matches (Star a) pre w post
                   /\ k (rev w ++ pre) post = true.
Proof.
  intros IHa. induction fuel as [|n IH]; intros pre s; simpl.
  - intros H. exists [], s. repeat split; [constructor|exact H].
  - rewrite orb_true_iff. intros [H|H].
    + apply IHa in H. destruct H as (w1 & rest & -> & Hm & Hk).
      apply andb_true_iff in Hk. destruct Hk as [_ Hk].
      apply IH in Hk. destruct Hk as (w2 & post & -> & Hm2 & Hk).
      exists (w1 ++ w2), post. split; [now rewrite app_assoc|].
      split; [now apply M_StarS|].
      now rewrite rev_app_distr, <- app_assoc.
    + exists [], s. repeat split; [constructor|exact H].
Qed.

Lemma exec_sound r : forall pre s k,
  exec r pre s k = true ->
  exists w post, s = w ++ post /\ Matches r pre w post
                 /\ k (rev w ++ pre) post = true.
Proof.
  induction r; intros pre s k; simpl.
  - intros H. exists [], s. repeat split; [constructor|exact H].
  - destruct s as [|x s']; [discriminate|]. rewrite andb_true_iff.
    intros [H1 H2]. exists [x], s'. repeat split; [now constructor|exact H2].
  - destruct s as [|x s']; [discriminate|]. rewrite andb_true_iff.
    intros [H1 H2]. exists [x], s'. repeat split; [|exact H2].
    constructor. now apply negb_true_iff.
  - destruct s as [|x s']; [discriminate|]. rewrite andb_true_iff.
    intros [H1 H2]. exists [x], s'. repeat split; [now constructor|exact H2].
  - destruct pre; [|discriminate]. intros H.
    exists [], s. repeat split; [constructor|exact H].
  - rewrite andb_true_iff. intros [H1 H2].
    exists [], s. repeat split; [now constructor|exact H2].
  - rewrite andb_true_iff. intros [H1 H2].
    exists [], s. repeat split; [|exact H2].
    constructor. now apply negb_true_iff.
  - intros H. apply IHr1 in H. destruct H as (w1 & rest & -> & Hm1 & H).
    apply IHr2 in H. destruct H as (w2 & post & -> & Hm2 & H).
    exists (w1 ++ w2), post. split; [now rewrite app_assoc|].
    split; [now constructor|]. now rewrite rev_app_distr, <- app_assoc.
  - rewrite orb_true_iff. intros [H|H].
    + apply IHr1 in H. destruct H as (w & post & -> & Hm & H).
      exists w, post. repeat split; [now apply M_AltL|exact H].
    + apply IHr2 in H. destruct H as (w & post & -> & Hm & H).
      exists w, post. repeat split; [now apply M_AltR|exact H].
  - apply star_loop_sound. exact IHr.
Qed.

(** [pattern.match]: some prefix of the subject matches. *)
Lemma re_match_iff r s :
  re_match r s = true <->
  exists w post, s = w ++ post /\ Matches r [] w post.
Proof.
  unfold re_match. split.
  - intros H. apply exec_sound in H. destruct H as (w & post & ? & ? & _).
    now exists w, post.
  - intros (w & post & -> & Hm). now apply exec_complete.
Qed.

Lemma search_from_iff r : forall s pre,
  search_from r pre s = true <->
  exists a w post, s = a ++ w ++ post /\ Matches r (rev a ++ pre) w post.
Proof.
  induction s as [|c s IH]; intros pre; simpl; rewrite orb_true_iff.
  - split.
    + intros [H|H]; [|discriminate]. apply exec_sound in H.
      destruct H as (w & post & ? & ? & _). now exists [], w, post.
    + intros (a & w & post & Heq & Hm). left.
      destruct a; [|discriminate]. simpl in *. rewrite Heq.
      now apply exec_complete.
  - rewrite IH. split.
    + intros [H|(a & w & post & -> & Hm)].
      * apply exec_sound in H. destruct H as (w & post & ? & ? & _).
        now exists [], w, post.
      * exists (c :: a), w, post. split; [reflexivity|].
        simpl. now rewrite <- app_assoc.
    + intros (a & w & post & Heq & Hm). destruct a as [|c' a].
      * left. simpl in *. rewrite Heq. now apply exec_complete.
      * right. simpl in Heq. injection Heq as -> ->.
        exists a, w, post. split; [reflexivity|].
        simpl in Hm. now rewrite <- app_assoc in Hm.
Qed.

(** [pattern.search]: some factor of the subject matches, in its place. *)
Lemma re_search_iff r s :
  re_search r s = true <->
  exists a w post, s = a ++ w ++ post /\ Matches r (rev a) w post.
Proof.
  unfold re_search. rewrite search_from_iff.
  split; intros (a & w & post & ? & ?); exists a, w, post;
    now rewrite ?app_nil_r in *.
Qed.

End MatcherFacts.

(** * Reading the patterns *)

Section PatternFacts.
Import Re Forms.


Lemma Matches_star_class (a : regex) (cls : ascii -> bool) :
  (forall pre w post, Matches a pre w post <->
      exists x, w = [x] /\ cls x = true) ->
  forall pre w post,
    Matches (Star a) pre w post <-> forallb cls w = true.
Proof.
  intros Ha. split.
  - remember (Star a) as r eqn:Er. induction 1; try discriminate.
    + reflexivity.
    + injection Er as ->. apply Ha in H. destruct H as (x & -> & Hx).
      simpl. rewrite Hx. now apply IHMatches2.
  - revert pre. induction w as [|x w IH]; intros pre; simpl.
    + constructor.
    + rewrite andb_true_iff. intros [Hx Hw].
      change (x :: w) with ([x] ++ w). apply M_StarS.
      * apply Ha. now exists x.
      * now apply IH.
Qed.

Lemma Matches_space pre w post :
  Matches Space pre w post <-> exists x, w = [x] /\ is_space x = true.
Proof.
  split.
  - inversion 1; subst. now exists x.
  - intros (x & -> & Hx). now constructor.
Qed.


Lemma Matches_dot pre w post :
  Matches Dot pre w post <-> exists x, w = [x] /\ not_newline x = true.
Proof.
  unfold not_newline. split.
  - inversion 1; subst. exists x. now rewrite H0.
  - intros (x & -> & Hx). constructor. now apply negb_true_iff.
Qed.

(** [\s*] followed by the rest of a pattern. *)
Lemma exec_star_space T pre s k :
  exec (Cat (Star Space) T) pre s k = true <->
  exists ws rest, s = ws ++ rest /\ forallb is_space ws = true
                  /\ exec T (rev ws ++ pre) rest k = true.
Proof.
  simpl exec at 1. split.
  - intros H. apply (exec_sound (Star Space)) in H.
    destruct H as (w & post & -> & Hm & Hk).
    exists w, post. repeat split; [|exact Hk].
    now apply (@Matches_star_class Space is_space Matches_space) in Hm.
  - intros (ws & rest & -> & Hws & Hk).
    apply (exec_complete (Star Space)); [|exact Hk].
    now apply (@Matches_star_class Space is_space Matches_space).
Qed.

(** [.*] followed by the rest of a pattern. *)
Lemma exec_star_dot T pre s k :
  exec (Cat (Star Dot) T) pre s k = true <->
  exists ws rest, s = ws ++ rest /\ forallb not_newline ws = true
                  /\ exec T (rev ws ++ pre) rest k = true.
Proof.
  simpl exec at 1. split.
  - intros H. apply (exec_sound (Star Dot)) in H.
    destruct H as (w & post & -> & Hm & Hk).
    exists w, post. repeat split; [|exact Hk].
    now apply (@Matches_star_class Dot not_newline Matches_dot) in Hm.
  - intros (ws & rest & -> & Hws & Hk).
    apply (exec_complete (Star Dot)); [|exact Hk].
    now apply (@Matches_star_class Dot not_newline Matches_dot).
Qed.

(** A pattern that can match nothing, last in line, asks for nothing. *)
Lemma exec_star_last a pre s : exec (Star a) pre s ktrue = true.
Proof.
  simpl. destruct (List.length s); simpl; [reflexivity|apply orb_true_r].
Qed.

(** A literal followed by the rest of a pattern. *)
Lemma exec_lits p : forall T pre s k,
  exec (Cat (lits p) T) pre s k =
  startswith_ci s p
  && exec T (rev (firstn (List.length p) s) ++ pre)
            (skipn (List.length p) s) k.
Proof.
  induction p as [|c p IH]; intros T pre s k.
  - reflexivity.
  - destruct s as [|x s]; [reflexivity|].
    change (exec (Cat (lits (c :: p)) T) pre (x :: s) k)
      with (eq_ci x c && exec (Cat (lits p) T) (x :: pre) s k).
    rewrite IH. simpl. rewrite <- app_assoc. simpl.
    now rewrite andb_assoc.
Qed.

Lemma exec_lits_last p pre s :
  exec (lits p) pre s ktrue = startswith_ci s p.
Proof.
  revert pre s. induction p as [|c p IH]; intros pre s.
  - reflexivity.
  - destruct s as [|x s]; [reflexivity|].
    change (exec (lits (c :: p)) pre (x :: s) ktrue)
      with (eq_ci x c && exec (lits p) (x :: pre) s ktrue).
    now rewrite IH.
Qed.

Lemma lstrip_app_space ws rest :
  forallb is_space ws = true -> lstrip (ws ++ rest) = lstrip rest.
Proof.
  induction ws as [|c ws IH]; simpl; [reflexivity|].
  rewrite andb_true_iff. intros [-> H]. now apply IH.
Qed.

Lemma lstrip_split s :
  exists ws, s = ws ++ lstrip s /\ forallb is_space ws = true.
Proof.
  induction s as [|c s (ws & IH1 & IH2)]; simpl.
  - now exists [].
  - destruct (is_space c) eqn:Hc.
    + exists (c :: ws). simpl. rewrite Hc, IH2. now rewrite <- IH1.
    + now exists [].
Qed.

Lemma lstrip_nonspace c s : is_space c = false -> lstrip (c :: s) = c :: s.
Proof. simpl. now intros ->. Qed.

Lemma eq_ci_paren x : eq_ci x "(" = Ascii.eqb x "(".
Proof.
  destruct x as [[] [] [] [] [] [] [] []]; reflexivity.
Qed.

Lemma eq_ci_plus x : eq_ci x "+" = Ascii.eqb x "+".
Proof.
  destruct x as [[] [] [] [] [] [] [] []]; reflexivity.
Qed.

(** [\s*\(], with or without [.*] behind it. *)
Lemma exec_opens_call pre s (T : regex) :
  (forall pre s, exec T pre s ktrue = true) ->
  (exec (Cat (Star Space) (Cat (Lit "(") T)) pre s ktrue = true
   <-> opens_call s = true)
  /\ (exec (Cat (Star Space) (Lit "(")) pre s ktrue = true
      <-> opens_call s = true).
Proof.
  intros HT. unfold opens_call. split; rewrite exec_star_space; split.
  - intros (ws & rest & -> & Hws & Hk). rewrite lstrip_app_space by exact Hws.
    simpl in Hk. destruct rest as [|x rest]; [discriminate|].
    rewrite eq_ci_paren in Hk. apply andb_true_iff in Hk.
    destruct Hk as [Hx _]. apply Ascii.eqb_eq in Hx. subst x. reflexivity.
  - intros H. destruct (lstrip_split s) as (ws & Hs & Hws).
    destruct (lstrip s) as [|x rest]; [discriminate|].
    exists ws, (x :: rest). repeat split; [exact Hs|exact Hws|].
    simpl. rewrite eq_ci_paren, H. apply HT.
  - intros (ws & rest & -> & Hws & Hk). rewrite lstrip_app_space by exact Hws.
    simpl in Hk. destruct rest as [|x rest]; [discriminate|].
    rewrite eq_ci_paren in Hk. apply andb_true_iff in Hk.
    destruct Hk as [Hx _]. apply Ascii.eqb_eq in Hx. subst x. reflexivity.
  - intros H. destruct (lstrip_split s) as (ws & Hs & Hws).
    destruct (lstrip s) as [|x rest]; [discriminate|].
    exists ws, (x :: rest). repeat split; [exact Hs|exact Hws|].
    simpl. now rewrite eq_ci_paren, H.
Qed.

(** [\s+], with or without [.*] behind it. *)
Lemma exec_plus_space pre s :
  exec (Plus Space) pre s ktrue = space_next s
  /\ exec (Cat (Plus Space) (Star Dot)) pre s ktrue = space_next s.
Proof.
  unfold Plus, space_next. split.
  - destruct s as [|x s]; [reflexivity|].
    change (exec (Cat Space (Star Space)) pre (x :: s) ktrue)
      with (is_space x && exec (Star Space) (x :: pre) s ktrue).
    now rewrite exec_star_last, andb_true_r.
  - destruct s as [|x s]; [reflexivity|].
    change (exec (Cat (Cat Space (Star Space)) (Star Dot)) pre (x :: s) ktrue)
      with (is_space x
            && exec (Cat (Star Space) (Star Dot)) (x :: pre) s ktrue).
    destruct (is_space x); [|reflexivity]. rewrite andb_true_l.
    apply exec_star_space. exists [], s. repeat split.
    apply exec_star_last.
Qed.

End PatternFacts.

Section CatalogFacts.
Import Re Forms CheckLogs.
Local Open Scope regex_scope.

Lemma bool_eq_iff (a b : bool) : (a = true <-> b = true) -> a = b.
Proof. destruct a, b; intuition congruence. Qed.

Lemma exec_call_tail pre s :
  exec (Star Space +> Lit "(") pre s ktrue = opens_call s.
Proof.
  apply bool_eq_iff. apply (proj2 (@exec_opens_call pre s (Star Dot)
    (fun p r => exec_star_last Dot p r))).
Qed.

Lemma exec_call_tail_dots pre s :
  exec (Star Space +> Lit "(" +> Star Dot) pre s ktrue = opens_call s.
Proof.
  apply bool_eq_iff. apply (proj1 (@exec_opens_call pre s (Star Dot)
    (fun p r => exec_star_last Dot p r))).
Qed.

Lemma startswith_ci_head s c p :
  startswith_ci s (c :: p) = true ->
  exists x r, s = x :: r /\ eq_ci x c = true.
Proof.
  destruct s as [|x r]; simpl; [discriminate|].
  rewrite andb_true_iff. intros [H _]. now exists x, r.
Qed.

Lemma is_space_lower x : is_space (lower x) = is_space x.
Proof. destruct x as [[] [] [] [] [] [] [] []]; reflexivity. Qed.

Lemma eq_ci_not_space x c :
  eq_ci x c = true -> is_space c = false -> is_space x = false.
Proof.
  unfold eq_ci. intros H Hc. apply Ascii.eqb_eq in H.
  now rewrite <- is_space_lower, H, is_space_lower.
Qed.

Lemma debug_statement_head body :
  debug_statement body = true -> space_next body = false.
Proof.
  unfold debug_statement, console_log_at, calls, println_at, echo_at.
  rewrite !orb_true_iff, !andb_true_iff.
  intros [[[[H|[H _]]|H]|[H _]]|[H _]];
    apply startswith_ci_head in H; destruct H as (x & r & -> & H);
    simpl; eapply eq_ci_not_space; try exact H; reflexivity.
Qed.

Lemma behind_spaces w c ws :
  is_space c = false -> forallb is_space ws = true ->
  behind (w ++ [c]) (rev ws) = false.
Proof.
  intros Hc Hws. unfold behind. rewrite rev_app_distr. simpl.
  destruct (rev ws) as [|x r] eqn:Er; [reflexivity|].
  assert (Hx : is_space x = true).
  { rewrite forallb_forall in Hws. apply Hws. apply in_rev.
    rewrite Er. now left. }
  destruct (eq_ci x c) eqn:Hxc; [|reflexivity].
  apply eq_ci_not_space in Hxc; congruence.
Qed.


Lemma FIX_PATTERNS_tails :
  FIX_PATTERNS = map (fun T => Bol +> Star Space +> T) fix_tails.
Proof. reflexivity. Qed.

Lemma fix_tails_spec ws rest :
  forallb is_space ws = true ->
  existsb (fun T => exec T (rev ws) rest ktrue) fix_tails
  = debug_statement rest.
Proof.
  intros Hws. unfold fix_tails, debug_statement. cbn [existsb].
  rewrite orb_false_r.
  change (exec (NotBehind (str "logger.") +> lits (str "log") +> Star Space
                  +> Lit "(" +> Star Dot) (rev ws) rest ktrue)
    with (negb (behind (str "logger.") (rev ws))
          && exec (lits (str "log") +> Star Space +> Lit "(" +> Star Dot)
               (rev ws) rest ktrue).
  pose proof (@behind_spaces (str "logger") "." ws eq_refl Hws) as Hb.
  change (str "logger" ++ ["."%char]) with (str "logger.") in Hb.
  rewrite Hb.
  rewrite !exec_lits, !exec_star_last, !exec_call_tail_dots.
  rewrite (proj2 (exec_plus_space _ _)).
  unfold console_log_at, calls, println_at, echo_at. simpl negb.
  rewrite !andb_true_r, !andb_true_l, !orb_assoc. reflexivity.
Qed.

Lemma existsb_map {A B} (f : A -> B) (g : B -> bool) l :
  existsb g (map f l) = existsb (fun x => g (f x)) l.
Proof. induction l; simpl; congruence. Qed.

(** A line matches a fix pattern when, after its leading white space, it
    starts with one of the debug statements. *)
Lemma fix_match_spec line : fix_match line = debug_statement (lstrip line).
Proof.
  apply bool_eq_iff. unfold fix_match.
  rewrite FIX_PATTERNS_tails, existsb_map, existsb_exists. split.
  - intros (T & HT & H). unfold re_match in H.
    change (exec (Bol +> Star Space +> T) [] line (fun _ _ => true))
      with (exec (Star Space +> T) [] line ktrue) in H.
    apply exec_star_space in H. destruct H as (ws & rest & -> & Hws & H).
    rewrite app_nil_r in H.
    assert (Hd : debug_statement rest = true).
    { rewrite <- (fix_tails_spec ws rest Hws). apply existsb_exists.
      now exists T. }
    rewrite lstrip_app_space by exact Hws.
    pose proof (debug_statement_head _ Hd) as Hh.
    destruct rest as [|c r]; [exact Hd|].
    now rewrite lstrip_nonspace.
  - intros Hd. destruct (lstrip_split line) as (ws & Hl & Hws).
    rewrite <- (fix_tails_spec ws _ Hws) in Hd.
    apply existsb_exists in Hd. destruct Hd as (T & HT & H).
    exists T. split; [exact HT|]. unfold re_match.
    change (exec (Bol +> Star Space +> T) [] line (fun _ _ => true))
      with (exec (Star Space +> T) [] line ktrue).
    apply exec_star_space. exists ws, (lstrip line).
    repeat split; [exact Hl|exact Hws|now rewrite app_nil_r].
Qed.

End CatalogFacts.

Section ScanCatalogFacts.
Import Re Forms CheckLogs.
Local Open Scope regex_scope.

Lemma search_from_bol T s : forall pre,
  pre <> [] -> search_from (Bol +> T) pre s = false.
Proof.
  induction s as [|c s IH]; intros [|x pre] H; try congruence; simpl.
  - reflexivity.
  - now rewrite IH.
Qed.

(** A pattern that starts with [^] is only tried at position 0. *)
Lemma re_search_bol T s : re_search (Bol +> T) s = exec T [] s ktrue.
Proof.
  unfold re_search. destruct s as [|c s]; simpl.
  - apply orb_false_r.
  - rewrite search_from_bol by discriminate. apply orb_false_r.
Qed.

Lemma search_from_alt a b s : forall pre,
  search_from (Alt a b) pre s = search_from a pre s || search_from b pre s.
Proof.
  induction s as [|c s IH]; intros pre; simpl.
  - now rewrite !orb_false_r.
  - rewrite IH.
    destruct (exec a pre (c :: s) _), (exec b pre (c :: s) _),
      (search_from a (c :: pre) s); reflexivity.
Qed.

Lemma re_search_join_alt ps s :
  ps <> [] -> re_search (join_alt ps) s = existsb (fun p => re_search p s) ps.
Proof.
  unfold re_search. induction ps as [|p ps IH]; [congruence|]. intros _.
  destruct ps as [|q ps].
  - simpl. now rewrite orb_false_r.
  - change (join_alt (p :: q :: ps)) with (Alt p (join_alt (q :: ps))).
    rewrite search_from_alt, IH by discriminate. reflexivity.
Qed.


Lemma LOG_PATTERNS_tails :
  LOG_PATTERNS = map (fun T => Bol +> Lit "+" +> Star Dot +> T) scan_tails.
Proof. reflexivity. Qed.

Lemma scan_tails_spec before rest :
  existsb (fun T => exec T (rev before) rest ktrue) scan_tails
  = debug_form_at before rest.
Proof.
  unfold scan_tails, debug_form_at, other_form_at, bare_log_at, log_call_at.
  cbn [existsb]. rewrite orb_false_r.
  change (exec (NotBehind (str "logger.") +> WordB +> lits (str "log")
                  +> Star Space +> Lit "(") (rev before) rest ktrue)
    with (negb (behind (str "logger.") (rev before))
          && (at_boundary (rev before) rest
              && exec (lits (str "log") +> Star Space +> Lit "(")
                   (rev before) rest ktrue)).
  change (exec (WordB +> lits (str "print") +> Star Space +> Lit "(")
            (rev before) rest ktrue)
    with (at_boundary (rev before) rest
          && exec (lits (str "print") +> Star Space +> Lit "(")
               (rev before) rest ktrue).
  change (exec (WordB +> lits (str "echo") +> Plus Space)
            (rev before) rest ktrue)
    with (at_boundary (rev before) rest
          && exec (lits (str "echo") +> Plus Space) (rev before) rest ktrue).
  rewrite !exec_lits, !exec_lits_last, !exec_call_tail.
  rewrite (proj1 (exec_plus_space _ _)).
  unfold console_log_at, calls, println_at, echo_at, word_edge, endswith_ci.
  unfold behind. rewrite !orb_assoc. reflexivity.
Qed.

(** The combined scan pattern on a line that starts with the added-line
    marker and holds no newline: it finds a match exactly when a debug form
    starts somewhere after the marker. *)
Lemma scan_pattern_spec body :
  forallb not_newline body = true ->
  re_search (join_alt LOG_PATTERNS) ("+"%char :: body) = true <->
  exists before rest,
    "+"%char :: body = before ++ rest /\ before <> []
    /\ debug_form_at before rest = true.
Proof.
  intros Hbody.
  rewrite re_search_join_alt by discriminate.
  rewrite LOG_PATTERNS_tails, existsb_map, existsb_exists. split.
  - intros (T & HT & H). rewrite re_search_bol in H.
    change (exec (Lit "+" +> Star Dot +> T) [] ("+"%char :: body) ktrue)
      with (eq_ci "+" "+" && exec (Star Dot +> T) ["+"%char] body ktrue) in H.
    apply andb_true_iff in H. destruct H as [_ H].
    apply exec_star_dot in H. destruct H as (ws & rest & -> & Hws & H).
    exists ("+"%char :: ws), rest. repeat split; [discriminate|].
    rewrite <- scan_tails_spec. apply existsb_exists. now exists T.
  - intros (before & rest & Heq & Hne & H).
    destruct before as [|x ws]; [congruence|].
    injection Heq as <- ->.
    rewrite <- scan_tails_spec in H. apply existsb_exists in H.
    destruct H as (T & HT & H). exists T. split; [exact HT|].
    rewrite re_search_bol.
    change (exec (Lit "+" +> Star Dot +> T) [] ("+"%char :: ws ++ rest) ktrue)
      with (eq_ci "+" "+"
            && exec (Star Dot +> T) ["+"%char] (ws ++ rest) ktrue).
    apply andb_true_iff. split; [reflexivity|].
    apply exec_star_dot. exists ws, rest. repeat split; [|exact H].
    rewrite forallb_app in Hbody. now apply andb_true_iff in Hbody.
Qed.

End ScanCatalogFacts.

(** * Lines *)

Section LineFacts.


Lemma linebreak_cr c : is_cr c = true -> is_linebreak c = true.
Proof. destruct c as [[] [] [] [] [] [] [] []]; vm_compute; congruence. Qed.


Lemma no_linebreak_rev l : no_linebreak (rev l) = no_linebreak l.
Proof.
  unfold no_linebreak. induction l as [|c l IH]; [reflexivity|].
  simpl. rewrite forallb_app, IH. simpl. rewrite andb_true_r.
  apply andb_comm.
Qed.

Lemma splitlines_from_no_linebreak n : forall s cur,
  List.length s <= n -> no_linebreak cur = true ->
  Forall (fun l => no_linebreak l = true) (splitlines_from cur s).
Proof.
  induction n as [|n IH]; intros s cur Hn Hcur.
  - destruct s; [|simpl in Hn; lia]. simpl.
    destruct cur; constructor; [|constructor].
    now rewrite no_linebreak_rev.
  - destruct s as [|c s]; simpl.
    + destruct cur; constructor; [|constructor].
      now rewrite no_linebreak_rev.
    + simpl in Hn.
      assert (Hr : no_linebreak (rev cur) = true)
        by now rewrite no_linebreak_rev.
      destruct (is_cr c) eqn:Hcr.
      * destruct s as [|d s].
        -- constructor; [exact Hr|]. apply IH; [simpl; lia|reflexivity].
        -- destruct (is_newline d); constructor; try exact Hr;
             apply IH; simpl in *; try lia; reflexivity.
      * destruct (is_linebreak c) eqn:Hlb.
        -- constructor; [exact Hr|]. apply IH; [lia|reflexivity].
        -- apply IH; [lia|]. unfold no_linebreak in *. simpl.
           now rewrite Hlb.
Qed.

(** No line that [splitlines] returns holds a line boundary. *)
Lemma splitlines_no_linebreak s :
  Forall (fun l => no_linebreak l = true) (splitlines s).
Proof.
  apply (splitlines_from_no_linebreak (List.length s));
    [lia|reflexivity].
Qed.

Lemma splitlines_from_line l : forall cur rest,
  no_linebreak l = true ->
  splitlines_from cur (l ++ NL ++ rest)
  = (rev cur ++ l) :: splitlines_from [] rest.
Proof.
  induction l as [|c l IH]; intros cur rest Hl.
  - simpl. now rewrite app_nil_r.
  - unfold no_linebreak in Hl. simpl in Hl. apply andb_true_iff in Hl.
    destruct Hl as [Hc Hl]. apply negb_true_iff in Hc.
    assert (Hcr : is_cr c = false).
    { destruct (is_cr c) eqn:H; [|reflexivity].
      apply linebreak_cr in H. congruence. }
    change ((c :: l) ++ NL ++ rest) with (c :: (l ++ NL ++ rest)).
    cbn [splitlines_from]. rewrite Hcr, Hc.
    rewrite IH by exact Hl. simpl. now rewrite <- app_assoc.
Qed.

(** Splitting what [write_text] was given returns the lines it was built
    from. *)
Lemma splitlines_join ls :
  ls <> [] -> Forall (fun l => no_linebreak l = true) ls ->
  splitlines (join NL ls ++ NL) = ls.
Proof.
  unfold splitlines. induction ls as [|l ls IH]; [congruence|].
  intros _ H. inversion H as [|? ? Hl Hls]; subst.
  destruct ls as [|l' ls].
  - simpl join. rewrite <- (app_nil_r (l ++ NL)), <- app_assoc.
    now rewrite splitlines_from_line.
  - change (join NL (l :: l' :: ls)) with (l ++ NL ++ join NL (l' :: ls)).
    rewrite <- !app_assoc. rewrite splitlines_from_line by exact Hl.
    simpl rev. simpl app at 1. f_equal. apply IH; [discriminate|exact Hls].
Qed.

Lemma splitlines_NL : splitlines NL = [[]].
Proof. reflexivity. Qed.


End LineFacts.

(** * The loops in closed form *)

Section LoopFacts.
Import Re CheckLogs.

Variable E : env.

Lemma state_eta s : {| fs := fs s; trace := trace s |} = s.
Proof. now destruct s. Qed.

Lemma report_lines_run pattern file lines : forall has_logs s,
  report_lines pattern file lines has_logs s
  = (Ok (has_logs || nonempty (filter (re_search pattern) lines)),
     {| fs := fs s;
        trace := trace s ++ map (fun line => Info (LogDetected file line))
                              (filter (re_search pattern) lines) |}).
Proof.
  induction lines as [|line lines IH]; intros has_logs s; simpl.
  - unfold ret. now rewrite orb_false_r, app_nil_r, state_eta.
  - destruct (re_search pattern line); simpl.
    + unfold bind, info, emit. rewrite IH. simpl.
      now rewrite <- app_assoc, orb_true_r.
    + apply IH.
Qed.

Lemma scan_files_run files :
  git_found E = true ->
  forall has_logs s,
    scan_files E (join_alt LOG_PATTERNS) files has_logs s
    = (Ok (has_logs || any_flagged E (fs s) files),
       {| fs := fs s;
          trace := trace s ++ flat_map (scan_events E (fs s)) files |}).
Proof.
  intros Hgit. induction files as [|file files IH]; intros has_logs s.
  - simpl. unfold ret. now rewrite orb_false_r, app_nil_r, state_eta.
  - cbn [scan_files flat_map any_flagged existsb].
    unfold scan_events at 1, visited.
    destruct (is_protected file); cbn [negb andb].
    + rewrite IH. reflexivity.
    + unfold bind at 1, path_exists, present.
      destruct (fs s file) eqn:Hf; cbn [negb].
      * unfold bind at 1, subprocess_run. rewrite Hgit.
        unfold bind at 1, emit, ret. cbn [fst snd].
        unfold bind at 1. rewrite report_lines_run. rewrite IH.
        cbn [fs trace]. unfold any_flagged, flagged_lines, staged_diff.
        cbn [app]. rewrite <- !app_assoc. cbn [app].
        now rewrite andb_true_l, orb_assoc.
      * rewrite IH. reflexivity.
Qed.

Lemma fix_lines_run file lines : forall new_lines modified s,
  fix_lines file lines new_lines modified s
  = (Ok (new_lines ++ filter (fun l => negb (fix_match l)) lines,
         modified || nonempty (filter fix_match lines)),
     {| fs := fs s;
        trace := trace s ++ map (fun l => Info (Removed (strip l) file))
                              (filter fix_match lines) |}).
Proof.
  induction lines as [|line lines IH]; intros new_lines modified s; simpl.
  - unfold ret. now rewrite orb_false_r, !app_nil_r, state_eta.
  - destruct (fix_match line); simpl.
    + unfold bind, info, emit. rewrite IH. simpl.
      now rewrite <- app_assoc, orb_true_r.
    + rewrite IH. now rewrite <- app_assoc.
Qed.

Lemma fix_files_run files : forall fixed_files s,
  fix_files files fixed_files s
  = (Ok (fixed_files ++ fixed_list files (fs s)),
     {| fs := fix_tree files (fs s);
        trace := trace s ++ fix_trace files (fs s) |}).
Proof.
  induction files as [|file files IH]; intros fixed_files s.
  - simpl. unfold ret. now rewrite !app_nil_r, state_eta.
  - cbn [fix_files fix_tree fix_trace fixed_list].
    unfold fix_one, fix_events, fixed_now.
    destruct (is_protected file).
    + rewrite IH. reflexivity.
    + unfold bind at 1, path_exists.
      destruct (fs s file) as [content|] eqn:Hf; cbn [negb].
      * unfold bind at 1, read_text. rewrite Hf.
        unfold bind at 1. rewrite fix_lines_run. cbn [fs trace app orb].
        unfold rewritten, dropped_lines, kept_lines.
        destruct (nonempty (filter fix_match (splitlines content))).
        -- unfold bind at 1, write_text. cbn [fs trace].
           rewrite IH. cbn [fs trace].
           rewrite <- !app_assoc. reflexivity.
        -- rewrite IH. cbn [fs trace]. rewrite app_nil_r, <- !app_assoc. reflexivity.
      * rewrite IH. reflexivity.
Qed.

End LoopFacts.

(** * One run of the script in closed form *)

Section RunFacts.
Import Re CheckLogs.

Variable E : env.

Lemma for_each_info (g : text -> message) xs : forall s,
  for_each xs (fun f => info (g f)) s
  = (Ok tt, {| fs := fs s;
               trace := trace s ++ map (fun f => Info (g f)) xs |}).
Proof.
  induction xs as [|x xs IH]; intros s; simpl.
  - unfold ret. now rewrite app_nil_r, state_eta.
  - unfold bind, info, emit. rewrite IH. simpl. now rewrite <- app_assoc.
Qed.

Lemma get_staged_files_run s :
  git_found E = true ->
  get_staged_files E s
  = (Ok (staged E),
     {| fs := fs s; trace := trace s ++ [Subprocess name_only] |}).
Proof.
  intros Hgit. unfold get_staged_files, subprocess_run, bind, emit, ret.
  now rewrite Hgit.
Qed.

Lemma block_if_protected_pass files s :
  filter is_protected files = [] -> block_if_protected files s = (Ok tt, s).
Proof. unfold block_if_protected. now intros ->. Qed.

Lemma block_if_protected_stop files s :
  filter is_protected files <> [] ->
  block_if_protected files s
  = (SystemExit 1,
     {| fs := fs s;
        trace := trace s ++ [Info CommitBlocked]
                 ++ map (fun f => Info (Bullet f)) (filter is_protected files)
                 ++ [Info MustNotBeChanged] |}).
Proof.
  unfold block_if_protected. destruct (filter is_protected files) as [|f l].
  - congruence.
  - intros _. unfold bind at 1, info at 1, emit.
    unfold bind at 1. rewrite for_each_info. cbn [fs trace].
    unfold bind, info, emit, sys_exit. cbn [fs trace].
    now rewrite <- !app_assoc.
Qed.

Lemma auto_fix_logs_run files s :
  git_found E = true ->
  auto_fix_logs E files s
  = (Ok tt,
     {| fs := fix_tree files (fs s);
        trace := trace s ++ fix_trace files (fs s)
                 ++ restage_events (fixed_list files (fs s)) |}).
Proof.
  intros Hgit. unfold auto_fix_logs, bind at 1. rewrite fix_files_run.
  cbn [app]. unfold restage_events, git_add.
  destruct (fixed_list files (fs s)) as [|f l].
  - unfold info, emit. cbn [fs trace]. now rewrite <- app_assoc.
  - unfold bind, subprocess_run. rewrite Hgit.
    unfold bind, emit, ret, info, emit. cbn [fs trace].
    now rewrite <- !app_assoc.
Qed.

Lemma run_git_missing fix_mode t :
  git_found E = false ->
  run E fix_mode t = (Uncaught FileNotFoundError, {| fs := t; trace := [] |}).
Proof.
  intros Hgit. unfold run, main, get_staged_files, subprocess_run, bind.
  now rewrite Hgit.
Qed.

Lemma run_nothing_staged fix_mode t :
  git_found E = true -> staged E = [] ->
  run E fix_mode t
  = (Exited 0,
     {| fs := t; trace := [Subprocess name_only; Info NoStagedFiles] |}).
Proof.
  intros Hgit Hst. unfold run, main, bind at 1.
  rewrite get_staged_files_run by exact Hgit. rewrite Hst. reflexivity.
Qed.

Lemma run_blocked fix_mode t :
  git_found E = true -> filter is_protected (staged E) <> [] ->
  run E fix_mode t
  = (Exited 1,
     {| fs := t;
        trace := [Subprocess name_only; Info CommitBlocked]
                 ++ map (fun f => Info (Bullet f))
                      (filter is_protected (staged E))
                 ++ [Info MustNotBeChanged] |}).
Proof.
  intros Hgit Hp. unfold run, main, bind at 1.
  rewrite get_staged_files_run by exact Hgit.
  destruct (staged E) as [|f l] eqn:Hst; [now elim Hp|].
  unfold bind at 1. rewrite block_if_protected_stop by exact Hp.
  reflexivity.
Qed.

Lemma run_scan t :
  git_found E = true -> staged E <> [] ->
  filter is_protected (staged E) = [] ->
  run E false t
  = (Exited (if any_flagged E t (staged E) then 1 else 0),
     {| fs := t;
        trace := Subprocess name_only
                 :: flat_map (scan_events E t) (staged E)
                 ++ [Info (if any_flagged E t (staged E)
                           then PleaseRemoveLogs else NoUnwantedLogs)] |}).
Proof.
  intros Hgit Hne Hp. unfold run, main, bind at 1.
  rewrite get_staged_files_run by exact Hgit.
  destruct (staged E) as [|f l] eqn:Hst; [congruence|].
  unfold bind at 1. rewrite block_if_protected_pass by exact Hp.
  unfold bind at 1, check_for_logs. rewrite scan_files_run by exact Hgit.
  cbn [fs trace orb app].
  destruct (any_flagged E t (f :: l)); reflexivity.
Qed.

Lemma run_fix t :
  git_found E = true -> staged E <> [] ->
  filter is_protected (staged E) = [] ->
  run E true t
  = (Exited 0,
     {| fs := fix_tree (staged E) t;
        trace := Subprocess name_only
                 :: fix_trace (staged E) t
                 ++ restage_events (fixed_list (staged E) t) |}).
Proof.
  intros Hgit Hne Hp. unfold run, main, bind at 1.
  rewrite get_staged_files_run by exact Hgit.
  destruct (staged E) as [|f l] eqn:Hst; [congruence|].
  unfold bind at 1. rewrite block_if_protected_pass by exact Hp.
  unfold bind at 1. rewrite auto_fix_logs_run by exact Hgit.
  reflexivity.
Qed.

End RunFacts.

(** * The fix pass on the working tree *)

Section FixFacts.
Import Re CheckLogs.

Lemma text_eqb_eq a : forall b, text_eqb a b = true <-> a = b.
Proof.
  induction a as [|x a IH]; intros [|y b]; simpl; split;
    try congruence; try reflexivity.
  - rewrite andb_true_iff, Ascii.eqb_eq, IH. now intros [-> ->].
  - intros [= -> ->]. rewrite Ascii.eqb_refl. now apply IH.
Qed.

Lemma text_eqb_refl a : text_eqb a a = true.
Proof. now apply text_eqb_eq. Qed.

Lemma text_eqb_neq a b : a <> b -> text_eqb a b = false.
Proof.
  intros H. destruct (text_eqb a b) eqn:Hab; [|reflexivity].
  apply text_eqb_eq in Hab. contradiction.
Qed.

Lemma write_same p c t : write p c t p = Some c.
Proof. unfold write. now rewrite text_eqb_refl. Qed.

Lemma write_other p c t q : q <> p -> write p c t q = t q.
Proof. intros H. unfold write. now rewrite text_eqb_neq. Qed.

Lemma nonempty_filter {A} (f : A -> bool) l :
  nonempty (filter f l) = existsb f l.
Proof.
  induction l as [|x l IH]; simpl; [reflexivity|].
  destruct (f x); simpl; [reflexivity|exact IH].
Qed.

Lemma existsb_filter_negb {A} (f : A -> bool) l :
  existsb f (filter (fun x => negb (f x)) l) = false.
Proof.
  induction l as [|x l IH]; simpl; [reflexivity|].
  destruct (f x) eqn:Hx; simpl; [exact IH|now rewrite Hx].
Qed.

Lemma fix_match_empty : fix_match [] = false.
Proof. reflexivity. Qed.

(** What is written back splits into the kept lines, or into one empty
    line when nothing was kept. *)
Lemma splitlines_kept c :
  splitlines (join NL (kept_lines c) ++ NL)
  = match kept_lines c with [] => [[]] | _ :: _ => kept_lines c end.
Proof.
  destruct (kept_lines c) as [|l ls] eqn:Hk; [reflexivity|].
  apply splitlines_join; [discriminate|].
  rewrite <- Hk. unfold kept_lines. apply Forall_forall.
  intros x Hx. apply filter_In in Hx. destruct Hx as [Hx _].
  pose proof (splitlines_no_linebreak c) as H.
  rewrite Forall_forall in H. now apply H.
Qed.

(** The text written back holds no line that a fix pattern matches. *)
Lemma rewritten_clean c c' : rewritten c = Some c' -> clean c' = true.
Proof.
  unfold rewritten. destruct (nonempty (dropped_lines c)); [|discriminate].
  intros [= <-]. unfold clean. rewrite splitlines_kept.
  destruct (kept_lines c) as [|l ls] eqn:Hk; [reflexivity|].
  rewrite <- Hk. unfold kept_lines. now rewrite existsb_filter_negb.
Qed.

Lemma rewritten_none_iff c : rewritten c = None <-> clean c = true.
Proof.
  unfold rewritten, clean, dropped_lines. rewrite nonempty_filter.
  destruct (existsb fix_match (splitlines c)); simpl; split; congruence.
Qed.

Lemma fix_text_clean c : clean (fix_text c) = true.
Proof.
  unfold fix_text. destruct (rewritten c) as [c'|] eqn:H.
  - now apply rewritten_clean in H.
  - now apply rewritten_none_iff.
Qed.

Lemma fix_one_other f t p : p <> f -> fix_one f t p = t p.
Proof.
  intros H. unfold fix_one. destruct (is_protected f); [reflexivity|].
  destruct (t f) as [c|]; [|reflexivity].
  destruct (rewritten c); [|reflexivity]. now apply write_other.
Qed.

Lemma fix_one_same f t :
  is_protected f = false -> fix_one f t f = option_map fix_text (t f).
Proof.
  intros Hp. unfold fix_one, fix_text. rewrite Hp.
  destruct (t f) as [c|] eqn:Hf; simpl; [|exact Hf].
  destruct (rewritten c); [apply write_same|exact Hf].
Qed.

Lemma fix_one_protected f t p :
  is_protected p = true -> fix_one f t p = t p.
Proof.
  intros Hp. destruct (list_eq_dec ascii_dec p f) as [->|Hne].
  - unfold fix_one. now rewrite Hp.
  - now apply fix_one_other.
Qed.

(** A pass over a clean file leaves it, and the tree, as they are. *)
Lemma fix_one_clean f t :
  (is_protected f = false -> forall c, t f = Some c -> clean c = true) ->
  fix_one f t = t /\ fixed_now f t = []
  /\ fix_events f t = if visited t f then [ReadText f] else [].
Proof.
  intros H. unfold fix_one, fixed_now, fix_events, visited, present.
  destruct (is_protected f); [now repeat split|].
  destruct (t f) as [c|]; [|now repeat split].
  specialize (H eq_refl c eq_refl). apply rewritten_none_iff in H.
  rewrite H. unfold rewritten in H. unfold dropped_lines in *.
  destruct (filter fix_match (splitlines c)); [|discriminate].
  now repeat split.
Qed.

Lemma fix_one_keeps_clean f t p c :
  t p = Some c -> clean c = true -> fix_one f t p = Some c.
Proof.
  intros Hp Hc. destruct (list_eq_dec ascii_dec p f) as [->|Hne].
  - unfold fix_one. destruct (is_protected f); [exact Hp|].
    rewrite Hp. apply rewritten_none_iff in Hc. now rewrite Hc.
  - now rewrite fix_one_other.
Qed.

Lemma fix_tree_keeps_clean files : forall t p c,
  t p = Some c -> clean c = true -> fix_tree files t p = Some c.
Proof.
  induction files as [|f files IH]; intros t p c Hp Hc; simpl.
  - exact Hp.
  - apply IH; [|exact Hc]. now apply fix_one_keeps_clean.
Qed.

Lemma fix_one_absent f t p : t p = None -> fix_one f t p = None.
Proof.
  intros Hp. destruct (list_eq_dec ascii_dec p f) as [->|Hne].
  - unfold fix_one. destruct (is_protected f); [exact Hp|]. now rewrite Hp.
  - now rewrite fix_one_other.
Qed.

Lemma fix_tree_absent files : forall t p,
  t p = None -> fix_tree files t p = None.
Proof.
  induction files as [|f files IH]; intros t p Hp; simpl; [exact Hp|].
  apply IH. now apply fix_one_absent.
Qed.

Lemma fix_tree_elsewhere files : forall t p,
  (In p files -> is_protected p = true) -> fix_tree files t p = t p.
Proof.
  induction files as [|f files IH]; intros t p H; simpl; [reflexivity|].
  rewrite IH by (intros Hin; apply H; now right).
  destruct (list_eq_dec ascii_dec p f) as [->|Hne].
  - apply fix_one_protected. apply H. now left.
  - now apply fix_one_other.
Qed.

(** The tree after a pass over [files]. *)
Lemma fix_tree_listed files : forall t p,
  In p files -> is_protected p = false ->
  fix_tree files t p = option_map fix_text (t p).
Proof.
  induction files as [|f files IH]; intros t p Hin Hp; [contradiction|].
  simpl. destruct (list_eq_dec ascii_dec p f) as [->|Hne].
  - pose proof (fix_one_same f t Hp) as H1.
    destruct (t f) as [c|]; simpl in *.
    + apply fix_tree_keeps_clean; [exact H1|apply fix_text_clean].
    + now apply fix_tree_absent.
  - destruct Hin as [->|Hin]; [congruence|].
    rewrite IH by assumption. now rewrite fix_one_other.
Qed.

(** Once every listed file is clean, a pass only reads. *)
Lemma fix_pass_on_clean files t :
  (forall f c, In f files -> is_protected f = false -> t f = Some c ->
               clean c = true) ->
  fix_tree files t = t /\ fixed_list files t = []
  /\ fix_trace files t = map ReadText (filter (visited t) files).
Proof.
  induction files as [|f files IH]; intros H; [now repeat split|].
  assert (Hf : is_protected f = false -> forall c, t f = Some c ->
               clean c = true)
    by (intros Hp c Hc; apply (H f c); [now left|exact Hp|exact Hc]).
  destruct (fix_one_clean f t Hf) as (H1 & H2 & H3).
  destruct IH as (I1 & I2 & I3);
    [intros g c Hg; apply H; now right|].
  simpl. rewrite H1, H2, H3, I1, I2, I3.
  repeat split. now destruct (visited t f).
Qed.

Lemma written_in_events f t p c' :
  In (WriteText p c') (fix_events f t) <->
  p = f /\ is_protected f = false
  /\ exists c, t f = Some c /\ rewritten c = Some c'.
Proof.
  unfold fix_events. destruct (is_protected f).
  - split; [contradiction|]. intros (_ & H & _). discriminate.
  - destruct (t f) as [c|].
    + simpl. rewrite in_app_iff. split.
      * intros [H|[H|H]]; [discriminate| |].
        -- apply in_map_iff in H. destruct H as (? & H & _). discriminate.
        -- destruct (rewritten c) as [c2|] eqn:Hr; [|contradiction].
           destruct H as [H|[]]. injection H as -> ->.
           repeat split. now exists c.
      * intros (-> & _ & c0 & [= <-] & Hr). right. right.
        rewrite Hr. now left.
    + split; [contradiction|]. intros (_ & _ & c & H & _). discriminate.
Qed.

(** The files a pass writes, and what it writes to them. *)
Lemma written_in_trace files : forall t p c',
  In (WriteText p c') (fix_trace files t) <->
  In p files /\ is_protected p = false
  /\ exists c, t p = Some c /\ rewritten c = Some c'.
Proof.
  induction files as [|f files IH]; intros t p c'; simpl.
  - split; [contradiction|]. now intros ([] & _).
  - rewrite in_app_iff, written_in_events, IH. split.
    + intros [(-> & Hp & c & Hc & Hr)|(Hin & Hp & c & Hc & Hr)].
      * repeat split; [now left|exact Hp|]. now exists c.
      * destruct (list_eq_dec ascii_dec p f) as [->|Hne].
        -- rewrite fix_one_same in Hc by exact Hp.
           destruct (t f) as [c0|]; [|discriminate]. simpl in Hc.
           injection Hc as <-. pose proof (fix_text_clean c0) as Hcl.
           apply rewritten_none_iff in Hcl. congruence.
        -- rewrite fix_one_other in Hc by exact Hne.
           repeat split; [now right|exact Hp|]. now exists c.
    + intros (Hin & Hp & c & Hc & Hr).
      destruct (list_eq_dec ascii_dec p f) as [->|Hne].
      * left. repeat split; [exact Hp|]. now exists c.
      * right. destruct Hin as [->|Hin]; [congruence|].
        repeat split; [exact Hin|exact Hp|]. exists c.
        now rewrite fix_one_other.
Qed.

Lemma fixed_now_written f t p :
  In p (fixed_now f t) <-> exists c', In (WriteText p c') (fix_events f t).
Proof.
  split.
  - unfold fixed_now. intros H. 
    destruct (is_protected f) eqn:Hp; [contradiction|].
    destruct (t f) as [c|] eqn:Hf; [|contradiction].
    destruct (rewritten c) as [c'|] eqn:Hr; [|contradiction].
    destruct H as [<-|[]]. exists c'. apply written_in_events.
    repeat split; [exact Hp|]. now exists c.
  - intros (c' & H). apply written_in_events in H.
    destruct H as (-> & Hp & c & Hc & Hr). unfold fixed_now.
    rewrite Hp, Hc, Hr. now left.
Qed.

(** The files handed to [git add] are the files written. *)
Lemma fixed_list_written files : forall t p,
  In p (fixed_list files t) <->
  exists c', In (WriteText p c') (fix_trace files t).
Proof.
  induction files as [|f files IH]; intros t p; simpl.
  - split; [contradiction|]. now intros (? & []).
  - rewrite in_app_iff, fixed_now_written, IH. split.
    + intros [(c' & H)|(c' & H)]; exists c'; apply in_app_iff; tauto.
    + intros (c' & H). apply in_app_iff in H.
      destruct H as [H|H]; [left|right]; now exists c'.
Qed.

End FixFacts.

(** * Scan mode *)

Section ScanFacts.
Import Re CheckLogs Forms.

Lemma staged_query E s files :
  fst (get_staged_files E s) = Ok files <->
  git_found E = true /\ files = staged E.
Proof.
  unfold get_staged_files, subprocess_run, bind.
  destruct (git_found E); simpl; split.
  - now intros [= <-].
  - now intros [_ ->].
  - discriminate.
  - now intros [? _].
Qed.


Lemma some_protected_filter files :
  existsb is_protected files = true -> filter is_protected files <> [].
Proof.
  induction files as [|f files IH]; simpl; [discriminate|].
  destruct (is_protected f); [discriminate|]. exact IH.
Qed.

Lemma detected_in_scan E t files file line :
  In (Info (LogDetected file line)) (flat_map (scan_events E t) files) <->
  In file files /\ visited t file = true /\ In line (flagged_lines E file).
Proof.
  rewrite in_flat_map. unfold scan_events. split.
  - intros (f & Hf & H). destruct (visited t f) eqn:Hv; [|contradiction].
    destruct H as [H|H]; [discriminate|].
    apply in_map_iff in H. destruct H as (l & [= -> ->] & Hl).
    now repeat split.
  - intros (Hf & Hv & Hl). exists file. split; [exact Hf|].
    rewrite Hv. right. apply in_map_iff. now exists line.
Qed.



Lemma startswith_iff s p : startswith s p = true <-> exists r, s = p ++ r.
Proof.
  revert s. induction p as [|c p IH]; intros s; simpl.
  - split; [now exists s|reflexivity].
  - destruct s as [|x s].
    + split; [discriminate|]. now intros (? & ?).
    + rewrite andb_true_iff, Ascii.eqb_eq, IH. split.
      * intros [-> (r & ->)]. now exists r.
      * intros (r & [= -> ->]). split; [reflexivity|now exists r].
Qed.

(** An added line is a line of the diff that starts with one plus sign and
    not with three. *)
Lemma added_lines_iff diff line :
  In line (added_lines diff) <->
  In line (splitlines diff)
  /\ (exists body, line = "+"%char :: body)
  /\ ~ (exists rest, line = str "+++" ++ rest).
Proof.
  unfold added_lines. rewrite filter_In, andb_true_iff, negb_true_iff.
  rewrite <- not_true_iff_false, !startswith_iff. reflexivity.
Qed.


Lemma check_for_logs_trace E t files :
  git_found E = true ->
  check_for_logs E files (start t)
  = (Ok (any_flagged E t files),
     {| fs := t; trace := flat_map (scan_events E t) files |}).
Proof.
  intros Hgit. unfold check_for_logs. now rewrite scan_files_run.
Qed.

End ScanFacts.

(** * What a protected path keeps away *)

Section ProtectedFacts.
Import Re CheckLogs.

Lemma scan_files_git_missing E pattern files :
  git_found E = false ->
  forall has_logs s, snd (scan_files E pattern files has_logs s) = s.
Proof.
  intros Hgit. induction files as [|file files IH]; intros has_logs s.
  - reflexivity.
  - cbn [scan_files]. destruct (is_protected file); [apply IH|].
    unfold bind at 1, path_exists.
    destruct (fs s file); cbn [negb]; [|apply IH].
    unfold bind, subprocess_run, raise. now rewrite Hgit.
Qed.

(** What a scan adds to the trace, with or without git. *)
Lemma check_for_logs_effect E files s :
  exists evs,
    snd (check_for_logs E files s)
    = {| fs := fs s; trace := trace s ++ evs |}
    /\ (evs = [] \/ evs = flat_map (scan_events E (fs s)) files).
Proof.
  unfold check_for_logs. destruct (git_found E) eqn:Hgit.
  - rewrite scan_files_run by exact Hgit. eexists. split; [reflexivity|].
    now right.
  - rewrite scan_files_git_missing by exact Hgit. exists [].
    rewrite app_nil_r, state_eta. split; [reflexivity|now left].
Qed.

(** What a fix pass adds to the trace and does to the tree, with or
    without git. *)
Lemma auto_fix_logs_effect E files s :
  exists tail,
    snd (auto_fix_logs E files s)
    = {| fs := fix_tree files (fs s);
         trace := trace s ++ fix_trace files (fs s) ++ tail |}
    /\ (tail = [] \/ tail = restage_events (fixed_list files (fs s))).
Proof.
  destruct (git_found E) eqn:Hgit.
  - rewrite auto_fix_logs_run by exact Hgit. eexists.
    split; [reflexivity|now right].
  - unfold auto_fix_logs, bind at 1. rewrite fix_files_run. cbn [app].
    destruct (fixed_list files (fs s)) as [|f l] eqn:Hl.
    + exists [Info NoChangesNeeded]. unfold info, emit. cbn [fs trace snd].
      rewrite <- app_assoc. split; [reflexivity|]. right. reflexivity.
    + exists []. unfold bind, subprocess_run, raise. rewrite Hgit.
      cbn [snd]. rewrite app_nil_r. split; [reflexivity|now left].
Qed.

Lemma protected_differs file a :
  is_protected file = true -> is_protected a = false ->
  text_eqb a file = false.
Proof.
  intros Hf Ha. destruct (text_eqb a file) eqn:H; [|reflexivity].
  apply text_eqb_eq in H. congruence.
Qed.

Lemma unconcerned_app file a b :
  unconcerned file (a ++ b) = unconcerned file a && unconcerned file b.
Proof. apply forallb_app. Qed.

Lemma scan_events_unconcerned E t file f :
  is_protected file = true -> unconcerned file (scan_events E t f) = true.
Proof.
  intros Hf. unfold scan_events, visited.
  destruct (is_protected f) eqn:Hp; [reflexivity|].
  destruct (present t f); [|reflexivity]. cbn [negb andb].
  unfold unconcerned. cbn [forallb concerns git_diff_cached app existsb].
  rewrite !(fun a => protected_differs file a Hf) by (exact Hp || reflexivity).
  cbn [orb negb andb]. apply forallb_forall. intros e He.
  apply in_map_iff in He. destruct He as (l & <- & _). simpl.
  now rewrite (protected_differs file f Hf Hp).
Qed.

Lemma scan_trace_unconcerned E t file files :
  is_protected file = true ->
  unconcerned file (flat_map (scan_events E t) files) = true.
Proof.
  intros Hf. induction files as [|f files IH]; [reflexivity|].
  simpl. now rewrite unconcerned_app, scan_events_unconcerned, IH.
Qed.

Lemma fix_events_unconcerned t file f :
  is_protected file = true -> unconcerned file (fix_events f t) = true.
Proof.
  intros Hf. unfold fix_events.
  destruct (is_protected f) eqn:Hp; [reflexivity|].
  destruct (t f) as [c|]; [|reflexivity].
  unfold unconcerned. cbn [forallb concerns].
  rewrite (protected_differs file f Hf Hp). cbn [negb andb].
  rewrite forallb_app. apply andb_true_iff. split.
  - apply forallb_forall. intros e He.
    apply in_map_iff in He. destruct He as (l & <- & _). simpl.
    now rewrite (protected_differs file f Hf Hp).
  - destruct (rewritten c); [|reflexivity]. simpl.
    now rewrite (protected_differs file f Hf Hp).
Qed.

Lemma fix_trace_unconcerned file files : forall t,
  is_protected file = true -> unconcerned file (fix_trace files t) = true.
Proof.
  induction files as [|f files IH]; intros t Hf; [reflexivity|].
  simpl. now rewrite unconcerned_app, fix_events_unconcerned, IH.
Qed.

Lemma fixed_list_unprotected files t p :
  In p (fixed_list files t) -> is_protected p = false.
Proof.
  intros H. apply fixed_list_written in H. destruct H as (c' & H).
  apply written_in_trace in H. tauto.
Qed.

Lemma restage_unconcerned file files t :
  is_protected file = true ->
  unconcerned file (restage_events (fixed_list files t)) = true.
Proof.
  intros Hf. unfold restage_events.
  pose proof (@fixed_list_unprotected files t) as Hun.
  destruct (fixed_list files t) as [|g l]; [reflexivity|].
  assert (Hl : existsb (fun a => text_eqb a file) (g :: l) = false).
  { apply not_true_iff_false. intros H. apply existsb_exists in H.
    destruct H as (a & Ha & H). apply text_eqb_eq in H. subst a.
    apply Hun in Ha. congruence. }
  unfold unconcerned. cbn [forallb concerns git_add app].
  change (existsb (fun a => text_eqb a file) (str "git" :: str "add" :: g :: l))
    with (text_eqb (str "git") file
          || (text_eqb (str "add") file
              || existsb (fun a => text_eqb a file) (g :: l))).
  rewrite !(fun a => protected_differs file a Hf) by reflexivity.
  now rewrite Hl.
Qed.

End ProtectedFacts.

(** * The model on sample inputs *)

Section Samples.
Import Re CheckLogs Forms.

Example scan_samples :
  map (fun line => re_search (join_alt LOG_PATTERNS) (str line))
    [ "+console.log(1)"; "+ x = 1"; "+logger.log(x)"; "+LOGGER.LOG (x)";
      "+ log(x)"; "+pprint(x)"; "+print (x)"; "+echo"; "+echo hi";
      "+catalog(x)"; "+ System.out.PRINTLN"; " console.log(1)";
      "+my.log(x)"; "+logger .log(x)" ]%string
  = [ true; false; false; false;
      true; false; true; false; true;
      false; true; false;
      true; true ].
Proof. vm_compute. reflexivity. Qed.

Example fix_samples :
  map (fun line => fix_match (str line))
    [ "console.log(1)"; "  print (x)"; "logger.log(x)"; "  log(x)";
      "x = 1; console.log(x)"; ""; "echo"; "echo x"; "ECHO  ";
      "system.out.println" ]%string
  = [ true; true; false; true;
      false; false; false; true; true;
      true ].
Proof. vm_compute. reflexivity. Qed.

Example splitlines_samples :
  splitlines (str "") = []
  /\ splitlines (str "a") = [str "a"]
  /\ splitlines NL = [[]]
  /\ splitlines (lines ["a"; ""; "b"]%string) = [str "a"; []; str "b"]
  /\ splitlines (str "a" ++ [ascii_of_N 13; ascii_of_N 10] ++ str "b")
     = [str "a"; str "b"].
Proof. repeat split. Qed.

Example dirty_scan_trace :
  trace (snd (run dirty_repo false dirty_tree))
  = [ Subprocess name_only;
      Subprocess (git_diff_cached [str "app.js"]);
      Info (LogDetected (str "app.js") (str "+  console.log('debug')"));
      Subprocess (git_diff_cached [str "util.py"]);
      Info (LogDetected (str "util.py") (str "+print ('x')"));
      Info (LogDetected (str "util.py") (str "+log('y')"));
      Info PleaseRemoveLogs ].
Proof. vm_compute. reflexivity. Qed.

Example dirty_fix_trace :
  trace (snd (run dirty_repo true dirty_tree))
  = [ Subprocess name_only;
      ReadText (str "app.js");
      Info (Removed (str "console.log('debug')") (str "app.js"));
      WriteText (str "app.js")
        (lines ["function f(x) {"; "  logger.log('kept')"; "}"]%string);
      ReadText (str "util.py");
      Info (Removed (str "print ('x')") (str "util.py"));
      Info (Removed (str "log('y')") (str "util.py"));
      WriteText (str "util.py") (lines ["import os"]%string);
      Subprocess (git_add [str "app.js"; str "util.py"]);
      Info (FixedAndRestaged [str "app.js"; str "util.py"]) ].
Proof. vm_compute. reflexivity. Qed.

Example git_missing_status :
  exit_status (fst (run no_git false dirty_tree)) = 1%Z.
Proof. reflexivity. Qed.

End Samples.

(** * The claims *)

Section Claims.
Import Re CheckLogs Forms.


(** C2: in either mode, when the staged file set holds a path under a
    protected prefix, the run logs the blocking notice, one line for each
    staged protected path and the explanation, and ends with status 1.
    Apart from the staged-file query it starts no command, and it reads and
    writes no file. *)
Theorem protected_path_blocks E fix_mode t files :
  fst (get_staged_files E (start t)) = Ok files ->
  existsb is_protected files = true ->
  run E fix_mode t
  = (Exited 1,
     {| fs := t;
        trace :=
          [Subprocess name_only; Info CommitBlocked]
          ++ map (fun f => Info (Bullet f)) (filter is_protected files)
          ++ [Info MustNotBeChanged] |}).
Proof.
  intros Hq Hp. apply staged_query in Hq. destruct Hq as [Hgit ->].
  apply run_blocked; [exact Hgit|now apply some_protected_filter].
Qed.

Lemma protected_path_blocks_witness :
  run protected_repo true dirty_tree
  = (Exited 1,
     {| fs := dirty_tree;
        trace :=
          [Subprocess name_only; Info CommitBlocked;
           Info (Bullet (str "src/config/settings.yaml"));
           Info MustNotBeChanged] |}).
Proof.
  rewrite (protected_path_blocks protected_repo true dirty_tree
             (staged protected_repo)).
  - vm_compute. reflexivity.
  - vm_compute. reflexivity.
  - vm_compute. reflexivity.
Defined.

(** C6: in either mode, when the staged-file query returns no file, the run
    logs that there is nothing to check and ends with status 0; the query is
    the only thing it did. *)
Theorem nothing_staged_exits_zero E fix_mode t :
  fst (get_staged_files E (start t)) = Ok [] ->
  run E fix_mode t
  = (Exited 0,
     {| fs := t; trace := [Subprocess name_only; Info NoStagedFiles] |}).
Proof.
  intros Hq. apply staged_query in Hq. destruct Hq as [Hgit Hst].
  now apply run_nothing_staged.
Qed.

Lemma nothing_staged_exits_zero_witness :
  run idle_repo false dirty_tree
  = (Exited 0,
     {| fs := dirty_tree;
        trace := [Subprocess name_only; Info NoStagedFiles] |}).
Proof.
  apply (nothing_staged_exits_zero idle_repo false dirty_tree).
  vm_compute. reflexivity.
Defined.

(** C7, as the spec has it, fails: outside a repository git starts, prints
    nothing on its standard output and leaves with status 128; the run takes
    that for an empty staged file set. *)
Lemma failed_query_taken_for_nothing_staged :
  query_failed failing_repo
  /\ run failing_repo false dirty_tree
     = (Exited 0,
        {| fs := dirty_tree;
           trace := [Subprocess name_only; Info NoStagedFiles] |}).
Proof.
  split; [right; vm_compute; discriminate|].
  vm_compute. reflexivity.
Qed.

(** C7, amended: when git cannot be started the failure leaves the script as
    an exception nothing catches, before anything is logged.  When git
    starts, its exit status plays no part in the run: a query that printed
    nothing is an empty staged file set, whatever its status. *)
Theorem query_failure_handling E fix_mode t :
  (git_found E = false ->
   run E fix_mode t
   = (Uncaught FileNotFoundError, {| fs := t; trace := [] |}))
  /\ (forall rc, run (with_status rc E) fix_mode t = run E fix_mode t)
  /\ (git_found E = true -> stdout (git E name_only) = [] ->
      run E fix_mode t
      = (Exited 0,
         {| fs := t; trace := [Subprocess name_only; Info NoStagedFiles] |})).
Proof.
  split; [|split].
  - apply run_git_missing.
  - intros rc. destruct (git_found E) eqn:Hgit.
    + assert (Hgit' : git_found (with_status rc E) = true) by exact Hgit.
      destruct (staged E) as [|f0 l0] eqn:Hst.
      * rewrite !run_nothing_staged; auto.
      * destruct (filter is_protected (staged E)) as [|p ps] eqn:Hp.
        -- destruct fix_mode.
           ++ rewrite !run_fix; try assumption; try reflexivity;
                (change (staged (with_status rc E)) with (staged E) ||
                 idtac); rewrite Hst; discriminate.
           ++ rewrite !run_scan; try assumption; try reflexivity;
                (change (staged (with_status rc E)) with (staged E) ||
                 idtac); rewrite Hst; discriminate.
        -- rewrite !run_blocked; try assumption; try reflexivity;
             (change (staged (with_status rc E)) with (staged E) || idtac);
             rewrite Hp; discriminate.
    + rewrite !run_git_missing; auto.
  - intros Hgit Hout. apply run_nothing_staged; [exact Hgit|].
    unfold staged. now rewrite Hout.
Qed.

Lemma query_failure_handling_witness :
  run no_git false dirty_tree
  = (Uncaught FileNotFoundError, {| fs := dirty_tree; trace := [] |})
  /\ run failing_repo true dirty_tree
     = (Exited 0,
        {| fs := dirty_tree;
           trace := [Subprocess name_only; Info NoStagedFiles] |}).
Proof.
  split.
  - apply (proj1 (query_failure_handling no_git false dirty_tree)).
    vm_compute. reflexivity.
  - apply (proj2 (proj2 (query_failure_handling failing_repo true
                           dirty_tree))); vm_compute; reflexivity.
Defined.

End Claims.

Section ScanClaims.
Import Re CheckLogs Forms.

Lemma flags_iff E t files file line :
  git_found E = true ->
  (flags E t files file line <->
   In file files /\ visited t file = true
   /\ In line (added_lines (staged_diff E file))
   /\ re_search (join_alt LOG_PATTERNS) line = true).
Proof.
  intros Hgit. unfold flags. rewrite check_for_logs_trace by exact Hgit.
  cbn [snd trace]. rewrite detected_in_scan. unfold flagged_lines.
  rewrite filter_In. tauto.
Qed.

Lemma flags_without_git E t files file line :
  git_found E = false -> ~ flags E t files file line.
Proof.
  intros Hgit. unfold flags, check_for_logs.
  now rewrite scan_files_git_missing by exact Hgit.
Qed.


(** C8, as the spec has it, fails: a diff line that adds a line starting
    with two plus signs starts with a plus sign and is not the marker line
    of the file header, and it is not taken as an added line; the scan
    passes over the debug statement on it. *)
Lemma added_increment_line_dropped :
  In (str "+++count; console.log(count)") (splitlines increment_diff)
  /\ startswith (str "+++count; console.log(count)") (str "+") = true
  /\ file_header_marker (str "+++count; console.log(count)") = false
  /\ ~ In (str "+++count; console.log(count)") (added_lines increment_diff)
  /\ run increment_repo false increment_tree
     = (Exited 0,
        {| fs := increment_tree;
           trace := [Subprocess name_only;
                     Subprocess (git_diff_cached [str "tick.js"]);
                     Info NoUnwantedLogs] |}).
Proof.
  split; [vm_compute; auto 10|].
  split; [vm_compute; reflexivity|].
  split; [vm_compute; reflexivity|].
  split; [vm_compute; intros H; exact H|].
  vm_compute. reflexivity.
Qed.

(** C8, amended: a line of the staged diff is taken as an added line exactly
    when it starts with a plus sign and does not start with three of them;
    the lines reported are added lines, unchanged, so each starts with its
    plus sign. *)
Theorem added_lines_by_prefix E t files file line :
  (In line (added_lines (staged_diff E file)) <->
   In line (splitlines (staged_diff E file))
   /\ (exists body, line = "+"%char :: body)
   /\ ~ (exists rest, line = str "+++" ++ rest))
  /\ (flags E t files file line ->
      In line (added_lines (staged_diff E file))
      /\ exists body, line = "+"%char :: body).
Proof.
  split; [apply added_lines_iff|].
  intros H. destruct (git_found E) eqn:Hgit.
  - apply flags_iff in H; [|exact Hgit]. destruct H as (_ & _ & Hl & _).
    split; [exact Hl|]. apply added_lines_iff in Hl. tauto.
  - now apply flags_without_git in H.
Qed.

Lemma added_lines_by_prefix_witness :
  In (str "+print ('x')") (added_lines (staged_diff dirty_repo (str "util.py")))
  /\ exists body, str "+print ('x')" = "+"%char :: body.
Proof.
  apply (proj2 (added_lines_by_prefix dirty_repo dirty_tree
                  (staged dirty_repo) (str "util.py") (str "+print ('x')"))).
  apply flags_iff; [vm_compute; reflexivity|].
  split; [vm_compute; auto|].
  split; [vm_compute; reflexivity|].
  split; vm_compute; auto.
Defined.

(** C9: whatever the files and the tree, neither a scan nor a fix pass does
    anything about a file under a protected prefix: no diff of it is asked
    for, no line of it is reported or removed, it is not read, not written
    and not staged, and its content stays what it was. *)
Theorem protected_files_skipped E files s file :
  is_protected file = true ->
  (exists evs,
     snd (check_for_logs E files s)
     = {| fs := fs s; trace := trace s ++ evs |}
     /\ unconcerned file evs = true)
  /\ (exists evs,
        trace (snd (auto_fix_logs E files s)) = trace s ++ evs
        /\ unconcerned file evs = true
        /\ fs (snd (auto_fix_logs E files s)) file = fs s file).
Proof.
  intros Hf. split.
  - destruct (check_for_logs_effect E files s) as (evs & Hs & [->| ->]);
      exists evs || eexists; (split; [exact Hs|]);
      [reflexivity|now apply scan_trace_unconcerned].
  - destruct (auto_fix_logs_effect E files s) as (tail & Hs & Htail).
    rewrite Hs. cbn [fs trace]. eexists. split; [reflexivity|]. split.
    + rewrite unconcerned_app, fix_trace_unconcerned by exact Hf.
      destruct Htail as [->| ->]; [reflexivity|].
      now apply restage_unconcerned.
    + apply fix_tree_elsewhere. now intros _.
Qed.

Lemma protected_files_skipped_witness :
  fs (snd (auto_fix_logs dirty_repo
             [str "src/config/settings.yaml"; str "util.py"]
             (start dirty_tree)))
     (str "src/config/settings.yaml")
  = Some (lines ["echo on"]%string).
Proof.
  destruct (protected_files_skipped dirty_repo
              [str "src/config/settings.yaml"; str "util.py"]
              (start dirty_tree) (str "src/config/settings.yaml"))
    as (_ & evs & _ & _ & H).
  - vm_compute. reflexivity.
  - rewrite H. vm_compute. reflexivity.
Defined.

End ScanClaims.

Section FixClaims.
Import Re CheckLogs Forms.





(** C5: after a fix pass, no line of a file it went through matches a fix
    pattern; a second pass over the same files then reads them, drops
    nothing, writes nothing, stages nothing, and says that no change was
    needed. *)
Theorem fix_mode_idempotent E E' files s :
  (forall f c,
     In f files -> is_protected f = false ->
     fs (snd (auto_fix_logs E files s)) f = Some c ->
     existsb fix_match (splitlines c) = false)
  /\ auto_fix_logs E' files (start (fs (snd (auto_fix_logs E files s))))
     = (Ok tt,
        {| fs := fs (snd (auto_fix_logs E files s));
           trace :=
             map ReadText
               (filter (visited (fs (snd (auto_fix_logs E files s)))) files)
             ++ [Info NoChangesNeeded] |}).
Proof.
  destruct (auto_fix_logs_effect E files s) as (tail & Hs & _).
  rewrite Hs. cbn [fs].
  assert (Hclean : forall f c,
             In f files -> is_protected f = false ->
             fix_tree files (fs s) f = Some c -> clean c = true).
  { intros f c Hf Hp Hc. rewrite fix_tree_listed in Hc by assumption.
    destruct (fs s f) as [c0|]; [|discriminate]. simpl in Hc.
    injection Hc as <-. apply fix_text_clean. }
  split.
  - intros f c Hf Hp Hc. apply negb_true_iff. now apply (Hclean f c).
  - destruct (fix_pass_on_clean files (fix_tree files (fs s)) Hclean)
      as (H1 & H2 & H3).
    unfold auto_fix_logs, bind. rewrite fix_files_run. cbn [fs trace start].
    rewrite H1, H2, H3. cbn [app]. unfold info, emit. reflexivity.
Qed.

Lemma fix_mode_idempotent_witness :
  auto_fix_logs dirty_repo (staged dirty_repo)
    (start (fs (snd (auto_fix_logs dirty_repo (staged dirty_repo)
                       (start dirty_tree)))))
  = (Ok tt,
     {| fs := fs (snd (auto_fix_logs dirty_repo (staged dirty_repo)
                         (start dirty_tree)));
        trace :=
          map ReadText
            (filter
               (visited (fs (snd (auto_fix_logs dirty_repo
                                    (staged dirty_repo)
                                    (start dirty_tree)))))
               (staged dirty_repo))
          ++ [Info NoChangesNeeded] |}).
Proof.
  exact (proj2 (fix_mode_idempotent dirty_repo dirty_repo
                  (staged dirty_repo) (start dirty_tree))).
Defined.





End FixClaims.

(** * Beyond the claims: the staged-file query and the protected prefixes *)

Section QueryFacts.
Import Re CheckLogs.

Lemma lstrip_nil_iff s : lstrip s = [] <-> forallb is_space s = true.
Proof.
  induction s as [|c s IH]; simpl; [tauto|].
  destruct (is_space c); simpl; [exact IH|]. split; discriminate.
Qed.

Lemma lstrip_head s c r : lstrip s = c :: r -> is_space c = false.
Proof.
  induction s as [|x s IH]; simpl; [discriminate|].
  destruct (is_space x) eqn:Hx; [exact IH|]. now intros [= <- _].
Qed.

Lemma forallb_rev {A} (f : A -> bool) l : forallb f (rev l) = forallb f l.
Proof.
  induction l as [|x l IH]; [reflexivity|]. simpl.
  rewrite forallb_app, IH. simpl. rewrite andb_true_r. apply andb_comm.
Qed.

Lemma rev_nil_iff {A} (l : list A) : rev l = [] <-> l = [].
Proof.
  split; [|now intros ->]. intros H.
  apply (f_equal (@List.length A)) in H. rewrite length_rev in H.
  now destruct l.
Qed.

Lemma strip_nil_iff s : strip s = [] <-> forallb is_space s = true.
Proof.
  unfold strip, rstrip. split.
  - intros H. apply (proj1 (rev_nil_iff _)) in H.
    apply (proj1 (lstrip_nil_iff _)) in H.
    rewrite forallb_rev in H. apply lstrip_nil_iff.
    destruct (lstrip s) as [|c r] eqn:Hl; [reflexivity|].
    apply lstrip_head in Hl. simpl in H. now rewrite Hl in H.
  - intros H. apply lstrip_nil_iff in H. now rewrite H.
Qed.

Lemma splitlines_from_some n : forall s cur,
  List.length s <= n -> cur <> [] -> splitlines_from cur s <> [].
Proof.
  induction n as [|n IH]; intros s cur Hn Hcur.
  - destruct s; [|simpl in Hn; lia]. simpl. now destruct cur.
  - destruct s as [|c s]; simpl; [now destruct cur|].
    simpl in Hn. destruct (is_cr c).
    + destruct s as [|d s]; [discriminate|].
      destruct (is_newline d); discriminate.
    + destruct (is_linebreak c); [discriminate|].
      apply IH; [lia|discriminate].
Qed.

Lemma splitlines_nil_iff s : splitlines s = [] <-> s = [].
Proof.
  split; [|now intros ->]. unfold splitlines.
  destruct s as [|c s]; [reflexivity|]. simpl. destruct (is_cr c).
  - destruct s as [|d s]; [discriminate|].
    destruct (is_newline d); discriminate.
  - destruct (is_linebreak c); [discriminate|]. intros H.
    exfalso. revert H.
    apply (splitlines_from_some (List.length s) s [c]); [lia|discriminate].
Qed.

(** X1: the staged-file query answers with no file exactly when git ran and
    printed only white space; and no name it returns holds a line
    boundary. *)
Theorem staged_names_shape E s :
  (fst (get_staged_files E s) = Ok [] <->
   git_found E = true
   /\ forallb is_space (stdout (git E name_only)) = true)
  /\ (forall files,
        fst (get_staged_files E s) = Ok files ->
        Forall (fun f => no_linebreak f = true) files).
Proof.
  split.
  - rewrite staged_query. unfold staged. split.
    + intros [H1 H2]. split; [exact H1|]. apply strip_nil_iff.
      apply splitlines_nil_iff. now symmetry.
    + intros [H1 H2]. split; [exact H1|]. apply strip_nil_iff in H2.
      now rewrite H2.
  - intros files H. apply staged_query in H. destruct H as [_ ->].
    apply splitlines_no_linebreak.
Qed.

Lemma startswith_app s p more :
  startswith s p = true -> startswith (s ++ more) p = true.
Proof.
  rewrite !startswith_iff. intros (r & ->). exists (r ++ more).
  now rewrite app_assoc.
Qed.

(** X2: a path is protected exactly when it spells out [src/config/] or
    [src/env/] and goes on from there; so whatever is appended to a
    protected path, the result is protected. *)
Theorem protected_below_prefix file :
  (is_protected file = true <->
   (exists rest, file = str "src/config/" ++ rest)
   \/ (exists rest, file = str "src/env/" ++ rest))
  /\ (forall more,
        is_protected file = true -> is_protected (file ++ more) = true).
Proof.
  assert (H : forall f, is_protected f = true <->
                        (exists rest, f = str "src/config/" ++ rest)
                        \/ (exists rest, f = str "src/env/" ++ rest)).
  { intros f. unfold is_protected, PROTECTED_PATHS. cbn [existsb].
    rewrite orb_false_r, orb_true_iff, !startswith_iff. reflexivity. }
  split; [apply H|]. intros more Hf. apply H. apply H in Hf.
  destruct Hf as [(r & ->)|(r & ->)]; [left|right]; exists (r ++ more);
    now rewrite app_assoc.
Qed.

End QueryFacts.

(** * Beyond the claims: what a run leaves alone, and how it ends *)

Section RunShapeFacts.
Import Re CheckLogs.

Lemma no_protected_filter_b files :
  existsb is_protected files = false -> filter is_protected files = [].
Proof.
  induction files as [|f files IH]; simpl; [reflexivity|].
  destruct (is_protected f); [discriminate|]. exact IH.
Qed.

(** The four ways a run can go. *)
Lemma run_cases E fix_mode t :
  (git_found E = false
   /\ run E fix_mode t
      = (Uncaught FileNotFoundError, {| fs := t; trace := [] |}))
  \/ (git_found E = true /\ staged E = []
      /\ run E fix_mode t
         = (Exited 0,
            {| fs := t;
               trace := [Subprocess name_only; Info NoStagedFiles] |}))
  \/ (git_found E = true /\ existsb is_protected (staged E) = true
      /\ run E fix_mode t
         = (Exited 1,
            {| fs := t;
               trace := [Subprocess name_only; Info CommitBlocked]
                        ++ map (fun f => Info (Bullet f))
                             (filter is_protected (staged E))
                        ++ [Info MustNotBeChanged] |}))
  \/ (git_found E = true /\ staged E <> []
      /\ existsb is_protected (staged E) = false
      /\ run E fix_mode t
         = if fix_mode then
             (Exited 0,
              {| fs := fix_tree (staged E) t;
                 trace := Subprocess name_only
                          :: fix_trace (staged E) t
                          ++ restage_events (fixed_list (staged E) t) |})
           else
             (Exited (if any_flagged E t (staged E) then 1 else 0),
              {| fs := t;
                 trace := Subprocess name_only
                          :: flat_map (scan_events E t) (staged E)
                          ++ [Info (if any_flagged E t (staged E)
                                    then PleaseRemoveLogs
                                    else NoUnwantedLogs)] |})).
Proof.
  destruct (git_found E) eqn:Hgit.
  - right. destruct (staged E) as [|f0 l0] eqn:Hst.
    + left. repeat split. apply run_nothing_staged; assumption.
    + right. rewrite <- Hst.
      destruct (existsb is_protected (staged E)) eqn:Hp.
      * left. repeat split. apply run_blocked; [exact Hgit|].
        now apply some_protected_filter.
      * right. repeat split; [rewrite Hst; discriminate|].
        apply no_protected_filter_b in Hp.
        destruct fix_mode;
          [apply run_fix|apply run_scan];
          try assumption; rewrite Hst; discriminate.
  - left. split; [reflexivity|]. now apply run_git_missing.
Qed.

Lemma scan_events_read_only E t f :
  forallb read_only (scan_events E t f) = true.
Proof.
  unfold scan_events. destruct (visited t f); [|reflexivity].
  cbn [forallb read_only]. apply andb_true_iff. split; [reflexivity|].
  apply forallb_forall. intros e He. apply in_map_iff in He.
  now destruct He as (l & <- & _).
Qed.

Lemma scan_trace_read_only E t files :
  forallb read_only (flat_map (scan_events E t) files) = true.
Proof.
  induction files as [|f files IH]; [reflexivity|]. simpl.
  now rewrite forallb_app, scan_events_read_only, IH.
Qed.

(** X3: a run in scan mode, however it ends, leaves the working tree as it
    found it, reads and writes no file, and starts no command other than
    diffs of the index. *)
Theorem scan_mode_read_only E t :
  fs (snd (run E false t)) = t
  /\ forallb read_only (trace (snd (run E false t))) = true.
Proof.
  destruct (run_cases E false t)
    as [(_ & ->)|[(_ & _ & ->)|[(_ & _ & ->)|(_ & _ & _ & ->)]]];
    cbn [snd fs trace]; (split; [reflexivity|]).
  - reflexivity.
  - reflexivity.
  - cbn [app forallb read_only]. cbn [andb].
    change (is_diff_command name_only) with true. cbn [andb].
    rewrite forallb_app. apply andb_true_iff. split; [|reflexivity].
    apply forallb_forall. intros e He. apply in_map_iff in He.
    now destruct He as (l & <- & _).
  - cbn [forallb read_only].
    change (is_diff_command name_only) with true. cbn [andb].
    rewrite forallb_app, scan_trace_read_only. reflexivity.
Qed.

Lemma fix_one_present f t p : present (fix_one f t) p = present t p.
Proof.
  unfold fix_one. destruct (is_protected f); [reflexivity|].
  destruct (t f) as [c|] eqn:Hf; [|reflexivity].
  destruct (rewritten c) as [c'|]; [|reflexivity].
  unfold present, write. destruct (text_eqb p f) eqn:Hpf; [|reflexivity].
  apply text_eqb_eq in Hpf. subst p. now rewrite Hf.
Qed.

Lemma fix_tree_present files : forall t p,
  present (fix_tree files t) p = present t p.
Proof.
  induction files as [|f files IH]; intros t p; simpl; [reflexivity|].
  now rewrite IH, fix_one_present.
Qed.

(** X4: no run, in either mode, creates or removes a file: the paths
    present in the working tree after it are the paths present before. *)
Theorem runs_keep_file_set E fix_mode t p :
  present (fs (snd (run E fix_mode t))) p = present t p.
Proof.
  destruct (run_cases E fix_mode t)
    as [(_ & ->)|[(_ & _ & ->)|[(_ & _ & ->)|(_ & _ & _ & ->)]]];
    try reflexivity.
  destruct fix_mode; cbn [snd fs]; [apply fix_tree_present|reflexivity].
Qed.


End RunShapeFacts.

(** * Beyond the claims: the two catalogs against each other *)

Section CatalogRelations.
Import Re CheckLogs Forms.
Local Open Scope regex_scope.

Lemma is_word_lower x : is_word (lower x) = is_word x.
Proof. destruct x as [[] [] [] [] [] [] [] []]; reflexivity. Qed.

Lemma eq_ci_word x c :
  eq_ci x c = true -> is_word c = true -> is_word x = true.
Proof.
  unfold eq_ci. intros H Hc. apply Ascii.eqb_eq in H.
  now rewrite <- is_word_lower, H, is_word_lower.
Qed.

Lemma space_not_word x : is_space x = true -> is_word x = false.
Proof. destruct x as [[] [] [] [] [] [] [] []]; vm_compute; congruence. Qed.

(** Right after the added-line marker and white space, no word is under
    way and [logger.] does not stand behind. *)
Lemma after_margin ws :
  forallb is_space ws = true ->
  word_before (rev ("+"%char :: ws)) = false
  /\ behind (str "logger.") (rev ("+"%char :: ws)) = false.
Proof.
  intros Hws. simpl rev. destruct (rev ws) as [|x r] eqn:Er.
  - split; reflexivity.
  - assert (Hx : is_space x = true).
    { rewrite forallb_forall in Hws. apply Hws. apply in_rev.
      rewrite Er. now left. }
    split.
    + simpl. now apply space_not_word.
    + unfold behind. simpl.
      destruct (eq_ci x ".") eqn:Hd; [|reflexivity].
      apply eq_ci_not_space in Hd; [congruence|reflexivity].
Qed.

Lemma starts_word rest c p :
  startswith_ci rest (c :: p) = true -> is_word c = true ->
  word_after rest = true.
Proof.
  intros H Hc. apply startswith_ci_head in H.
  destruct H as (x & r & -> & Hx). simpl. now apply (eq_ci_word x c).
Qed.

Lemma debug_statement_word body :
  debug_statement body = true -> word_after body = true.
Proof.
  unfold debug_statement, console_log_at, calls, println_at, echo_at.
  rewrite !orb_true_iff, !andb_true_iff.
  intros [[[[H|[H _]]|H]|[H _]]|[H _]];
    apply startswith_ci_head in H; destruct H as (x & r & -> & H);
    simpl; eapply eq_ci_word; try exact H; reflexivity.
Qed.

(** X6: a line that fix mode removes would be flagged by scan mode if it
    were added: with the marker in front it passes the added-line test and
    the combined scan pattern finds a match in it. *)
Theorem dropped_line_would_be_flagged line :
  forallb not_newline line = true ->
  fix_match line = true ->
  (startswith ("+"%char :: line) (str "+")
   && negb (startswith ("+"%char :: line) (str "+++"))) = true
  /\ re_search (join_alt LOG_PATTERNS) ("+"%char :: line) = true.
Proof.
  intros Hnl Hfix. rewrite fix_match_spec in Hfix.
  destruct (lstrip_split line) as (ws & Hline & Hws).
  pose proof (debug_statement_head _ Hfix) as Hhead.
  destruct (after_margin ws Hws) as [Hwb Hbehind].
  split.
  - cbn [startswith str list_ascii_of_string]. rewrite Ascii.eqb_refl.
    cbn [andb]. apply negb_true_iff.
    destruct line as [|x l]; [reflexivity|]. cbn [startswith].
    destruct (Ascii.eqb x "+") eqn:Hx; [|reflexivity].
    apply Ascii.eqb_eq in Hx. subst x. exfalso.
    destruct ws as [|w ws'].
    + apply debug_statement_word in Hfix. simpl in Hfix. discriminate.
    + injection Hline as <- _. simpl in Hws. discriminate.
  - apply (scan_pattern_spec line Hnl).
    exists ("+"%char :: ws), (lstrip line).
    split; [now rewrite Hline at 1|]. split; [discriminate|].
    unfold debug_form_at, other_form_at, bare_log_at, log_call_at,
      word_edge, endswith_ci, at_boundary.
    change (startswith_ci (rev ("+"%char :: ws)) (rev (str "logger.")))
      with (behind (str "logger.") (rev ("+"%char :: ws))).
    rewrite Hwb, Hbehind. cbn [xorb negb andb].
    pose proof Hfix as Hall. unfold debug_statement in Hfix.
    repeat (apply orb_true_iff in Hfix; destruct Hfix as [Hfix|Hfix]).
    + now rewrite Hfix.
    + pose proof (debug_statement_word _ Hall) as Hw.
      rewrite Hw, Hfix. cbn [andb]. now rewrite orb_true_r.
    + rewrite Hfix. now rewrite !orb_true_r.
    + pose proof (debug_statement_word _ Hall) as Hw.
      rewrite Hw, Hfix. cbn [andb]. now rewrite !orb_true_r.
    + pose proof (debug_statement_word _ Hall) as Hw.
      rewrite Hw, Hfix. cbn [andb]. now rewrite !orb_true_r.
Qed.

Lemma dropped_line_would_be_flagged_witness :
  re_search (join_alt LOG_PATTERNS) (str "+  echo done") = true.
Proof.
  apply (dropped_line_would_be_flagged (str "  echo done")).
  - vm_compute. reflexivity.
  - vm_compute. reflexivity.
Defined.

(** X7: the look-behind of the fifth fix pattern never rules a line out:
    the pattern matches the lines that the same pattern without it
    matches. *)
Theorem fix_lookbehind_idle line :
  re_match (nth 4 FIX_PATTERNS Eps) line = re_match fix_log_plain line.
Proof.
  apply bool_eq_iff. unfold re_match, fix_log_plain. cbn [nth FIX_PATTERNS].
  change (exec (Bol +> Star Space +> NotBehind (str "logger.")
                  +> lits (str "log") +> Star Space +> Lit "(" +> Star Dot)
            [] line (fun _ _ => true))
    with (exec (Star Space +> NotBehind (str "logger.")
                  +> lits (str "log") +> Star Space +> Lit "(" +> Star Dot)
            [] line ktrue).
  change (exec (Bol +> Star Space +> lits (str "log") +> Star Space
                  +> Lit "(" +> Star Dot) [] line (fun _ _ => true))
    with (exec (Star Space +> lits (str "log") +> Star Space +> Lit "("
                  +> Star Dot) [] line ktrue).
  rewrite !exec_star_space.
  split; intros (ws & rest & Hl & Hws & H); exists ws, rest;
    (split; [exact Hl|]); (split; [exact Hws|]);
    rewrite app_nil_r in *;
    pose proof (behind_spaces (str "logger") "." ws eq_refl Hws) as Hb;
    change (str "logger" ++ ["."%char]) with (str "logger.") in Hb.
  - change (negb (behind (str "logger.") (rev ws))
            && exec (lits (str "log") +> Star Space +> Lit "(" +> Star Dot)
                 (rev ws) rest ktrue = true) in H.
    now rewrite Hb in H.
  - change (negb (behind (str "logger.") (rev ws))
            && exec (lits (str "log") +> Star Space +> Lit "(" +> Star Dot)
                 (rev ws) rest ktrue = true).
    now rewrite Hb.
Qed.

End CatalogRelations.

(** * Beyond the claims: what the fix pass writes and runs *)

Section FixPassFacts.
Import Re CheckLogs.

Lemma written_by_pass E files t p c' :
  In (WriteText p c') (trace (snd (auto_fix_logs E files (start t)))) <->
  In (WriteText p c') (fix_trace files t).
Proof.
  destruct (auto_fix_logs_effect E files (start t)) as (tail & -> & Htail).
  cbn [trace start fs app] in *. rewrite in_app_iff. split; [|tauto].
  intros [H|H]; [exact H|]. exfalso.
  destruct Htail as [->| ->]; [destruct H|].
  unfold restage_events in H.
  destruct (fixed_list files t).
  - destruct H as [H|[]]. discriminate.
  - destruct H as [H|[H|[]]]; discriminate.
Qed.

Lemma newline_only_join ls :
  Forall (fun l => no_linebreak l = true) ls ->
  newline_only (join NL ls ++ NL) = true.
Proof.
  assert (Hline : forall l, no_linebreak l = true -> newline_only l = true).
  { intros l Hl. unfold newline_only, no_linebreak in *.
    rewrite forallb_forall in *. intros ch Hch.
    now rewrite (Hl ch Hch). }
  assert (Happ : forall a b, newline_only (a ++ b)
                             = newline_only a && newline_only b)
    by (intros; apply forallb_app).
  induction 1 as [|l ls Hl Hls IH]; [reflexivity|].
  destruct ls as [|l' ls].
  - simpl join. now rewrite Happ, (Hline l Hl).
  - change (join NL (l :: l' :: ls)) with (l ++ NL ++ join NL (l' :: ls)).
    rewrite <- !app_assoc, Happ, (Hline l Hl), Happ. exact IH.
Qed.

Lemma kept_no_linebreak c :
  Forall (fun l => no_linebreak l = true) (kept_lines c).
Proof.
  unfold kept_lines. apply Forall_forall. intros x Hx.
  apply filter_In in Hx. destruct Hx as [Hx _].
  pose proof (splitlines_no_linebreak c) as H.
  rewrite Forall_forall in H. now apply H.
Qed.

(** X8: every text the fix pass writes ends with a newline, and the newline
    is the only line boundary in it: carriage returns, form feeds and the
    other separators of the file it read are gone. *)
Theorem written_text_newlines_only E files t p c' :
  In (WriteText p c') (trace (snd (auto_fix_logs E files (start t)))) ->
  newline_only c' = true /\ exists body, c' = body ++ NL.
Proof.
  intros H. apply written_by_pass in H. apply written_in_trace in H.
  destruct H as (_ & _ & c & _ & Hr). unfold rewritten in Hr.
  destruct (nonempty (dropped_lines c)); [|discriminate].
  injection Hr as <-. split.
  - apply newline_only_join. apply kept_no_linebreak.
  - now exists (join NL (kept_lines c)).
Qed.

Lemma written_text_newlines_only_witness :
  newline_only (lines ["ls"; "pwd"; "date"]%string) = true
  /\ exists body, lines ["ls"; "pwd"; "date"]%string = body ++ NL.
Proof.
  apply (written_text_newlines_only debug_only_repo [str "trace.sh"]
           mixed_ends_tree (str "trace.sh")).
  vm_compute. auto.
Defined.

(** X9: reading back what the fix pass wrote gives the lines it kept: the
    text written for a file splits into the lines of the file's old text
    that match no fix pattern, in their order, or into a single empty line
    when no line was kept. *)
Theorem written_text_round_trip E files t p c' :
  In (WriteText p c') (trace (snd (auto_fix_logs E files (start t)))) ->
  exists c,
    t p = Some c
    /\ splitlines c'
       = match filter (fun l => negb (fix_match l)) (splitlines c) with
         | [] => [[]]
         | l :: ls => l :: ls
         end.
Proof.
  intros H. apply written_by_pass in H. apply written_in_trace in H.
  destruct H as (_ & _ & c & Hc & Hr). exists c. split; [exact Hc|].
  unfold rewritten in Hr.
  destruct (nonempty (dropped_lines c)); [|discriminate].
  injection Hr as <-. rewrite splitlines_kept.
  fold (kept_lines c). now destruct (kept_lines c).
Qed.

Lemma written_text_round_trip_witness :
  exists c,
    mixed_ends_tree (str "trace.sh") = Some c
    /\ splitlines (lines ["ls"; "pwd"; "date"]%string)
       = match filter (fun l => negb (fix_match l)) (splitlines c) with
         | [] => [[]]
         | l :: ls => l :: ls
         end.
Proof.
  apply (written_text_round_trip debug_only_repo [str "trace.sh"]
           mixed_ends_tree (str "trace.sh")).
  vm_compute. auto.
Defined.

Lemma no_command_in_fix_trace files : forall t argv,
  ~ In (Subprocess argv) (fix_trace files t).
Proof.
  induction files as [|f files IH]; intros t argv; simpl; [tauto|].
  rewrite in_app_iff. intros [H|H]; [|now apply IH in H].
  unfold fix_events in H. destruct (is_protected f); [contradiction|].
  destruct (t f) as [c|]; [|contradiction].
  destruct H as [H|H]; [discriminate|]. apply in_app_iff in H.
  destruct H as [H|H].
  - apply in_map_iff in H. destruct H as (? & H & _). discriminate.
  - destruct (rewritten c); [|contradiction].
    destruct H as [H|[]]. discriminate.
Qed.

End FixPassFacts.

(** * Beyond the claims: what each mode depends on *)

Section DependenceFacts.
Import Re CheckLogs.

Lemma scan_events_same_files E t t' :
  (forall p, present t p = present t' p) ->
  forall files,
    flat_map (scan_events E t) files = flat_map (scan_events E t') files
    /\ any_flagged E t files = any_flagged E t' files.
Proof.
  intros H files.
  assert (Hv : forall f, visited t f = visited t' f)
    by (intros f; unfold visited; now rewrite (H f)).
  split.
  - apply flat_map_ext. intros f. unfold scan_events. now rewrite Hv.
  - unfold any_flagged. induction files as [|f files IH]; [reflexivity|].
    simpl. now rewrite Hv, IH.
Qed.

(** X11: scan mode looks at the staged diff and not at the working files:
    two working trees in which the same paths exist give the same exit,
    the same reports and the same commands, whatever the files hold. *)
Theorem scan_ignores_file_contents E t t' :
  (forall p, present t p = present t' p) ->
  fst (run E false t) = fst (run E false t')
  /\ trace (snd (run E false t)) = trace (snd (run E false t')).
Proof.
  intros H.
  destruct (scan_events_same_files E t t' H (staged E)) as [H1 H2].
  destruct (run_cases E false t)
    as [(Hg & ->)|[(Hg & Hs & ->)|[(Hg & Hp & ->)|(Hg & Hs & Hp & ->)]]].
  - now rewrite run_git_missing.
  - now rewrite run_nothing_staged.
  - rewrite run_blocked; [now split|exact Hg|].
    now apply some_protected_filter.
  - rewrite run_scan;
      [|exact Hg|exact Hs|now apply no_protected_filter_b].
    cbn [fst snd trace]. now rewrite H1, H2.
Qed.

Lemma scan_ignores_file_contents_witness :
  fst (run dirty_repo false dirty_tree)
  = fst (run dirty_repo false
           (tree_of [(str "app.js", []); (str "util.py", []);
                     (str "src/config/settings.yaml", [])]))
  /\ trace (snd (run dirty_repo false dirty_tree))
     = trace (snd (run dirty_repo false
                     (tree_of [(str "app.js", []); (str "util.py", []);
                               (str "src/config/settings.yaml", [])]))).
Proof.
  apply (scan_ignores_file_contents dirty_repo dirty_tree).
  intros p. unfold present, dirty_tree, tree_of. cbn [find fst snd].
  destruct (text_eqb (str "app.js") p); [reflexivity|].
  destruct (text_eqb (str "util.py") p); [reflexivity|].
  destruct (text_eqb (str "src/config/settings.yaml") p); reflexivity.
Defined.

(** X12: fix mode works on the files as they are on disk and takes nothing
    from git but the staged names: two gits that agree on whether they start
    and on the staged files give the same run, whatever their diffs say. *)
Theorem fix_ignores_staged_diffs E E' t :
  git_found E = git_found E' ->
  staged E = staged E' ->
  run E true t = run E' true t.
Proof.
  intros Hg Hs.
  destruct (run_cases E true t)
    as [(Hg1 & ->)|[(Hg1 & Hs1 & ->)|[(Hg1 & Hp1 & ->)|(Hg1 & Hs1 & Hp1 & ->)]]];
    rewrite Hg in Hg1; rewrite ?Hs in *.
  - now rewrite run_git_missing.
  - now rewrite run_nothing_staged.
  - rewrite run_blocked; [reflexivity|exact Hg1|].
    now apply some_protected_filter.
  - rewrite run_fix;
      [reflexivity|exact Hg1|exact Hs1|now apply no_protected_filter_b].
Qed.

Lemma fix_ignores_staged_diffs_witness :
  run dirty_repo true dirty_tree
  = run (repo 0 (lines ["app.js"; "util.py"; "gone.txt"]%string)
           (fun _ => [])) true dirty_tree.
Proof.
  apply (fix_ignores_staged_diffs dirty_repo
           (repo 0 (lines ["app.js"; "util.py"; "gone.txt"]%string)
              (fun _ => [])) dirty_tree).
  - reflexivity.
  - vm_compute. reflexivity.
Defined.



End DependenceFacts.

(** * Beyond the claims: letter case *)

Section CaseFacts.
Import Re CheckLogs.

Lemma lower_lower x : lower (lower x) = lower x.
Proof. destruct x as [[] [] [] [] [] [] [] []]; reflexivity. Qed.

Lemma is_newline_lower x : is_newline (lower x) = is_newline x.
Proof. destruct x as [[] [] [] [] [] [] [] []]; reflexivity. Qed.

Lemma eq_ci_lower x c : eq_ci (lower x) c = eq_ci x c.
Proof. unfold eq_ci. now rewrite lower_lower. Qed.

Lemma startswith_ci_lower p : forall s,
  startswith_ci (map lower s) p = startswith_ci s p.
Proof.
  induction p as [|c p IH]; intros [|x s]; simpl; try reflexivity.
  now rewrite eq_ci_lower, IH.
Qed.

Lemma at_boundary_lower pre s :
  at_boundary (map lower pre) (map lower s) = at_boundary pre s.
Proof.
  unfold at_boundary, word_before, word_after.
  destruct pre, s; simpl; now rewrite ?is_word_lower.
Qed.

Lemma Matches_lower r pre w post :
  Matches r pre w post ->
  Matches r (map lower pre) (map lower w) (map lower post).
Proof.
  induction 1; simpl; try (constructor; fail).
  - constructor. now rewrite eq_ci_lower.
  - constructor. now rewrite is_newline_lower.
  - constructor. now rewrite is_space_lower.
  - constructor. now rewrite at_boundary_lower.
  - constructor. unfold behind in *. now rewrite startswith_ci_lower.
  - rewrite map_app. constructor.
    + now rewrite <- map_app.
    + now rewrite <- map_rev, <- map_app.
  - now apply M_AltL.
  - now apply M_AltR.
  - rewrite map_app. apply M_StarS.
    + now rewrite <- map_app.
    + now rewrite <- map_rev, <- map_app.
Qed.

Lemma Matches_of_lower r pre' w' post' :
  Matches r pre' w' post' ->
  forall pre w post,
    pre' = map lower pre -> w' = map lower w -> post' = map lower post ->
    Matches r pre w post.
Proof.
  induction 1; intros pre0 w0 post0 Hpre Hw Hpost; subst.
  - symmetry in Hw. apply map_eq_nil in Hw. subst. constructor.
  - destruct w0 as [|y [|? ?]]; try discriminate. injection Hw as ->.
    constructor. now rewrite eq_ci_lower in H.
  - destruct w0 as [|y [|? ?]]; try discriminate. injection Hw as ->.
    constructor. now rewrite is_newline_lower in H.
  - destruct w0 as [|y [|? ?]]; try discriminate. injection Hw as ->.
    constructor. now rewrite is_space_lower in H.
  - symmetry in Hpre, Hw. apply map_eq_nil in Hpre, Hw. subst. constructor.
  - symmetry in Hw. apply map_eq_nil in Hw. subst.
    constructor. now rewrite at_boundary_lower in H.
  - symmetry in Hw. apply map_eq_nil in Hw. subst.
    constructor. unfold behind in *. now rewrite startswith_ci_lower in H.
  - symmetry in Hw. apply map_eq_app in Hw.
    destruct Hw as (u1 & u2 & -> & <- & <-). constructor.
    + apply IHMatches1; try reflexivity. now rewrite map_app.
    + apply IHMatches2; try reflexivity. now rewrite map_app, map_rev.
  - apply M_AltL. now apply IHMatches.
  - apply M_AltR. now apply IHMatches.
  - symmetry in Hw. apply map_eq_nil in Hw. subst. constructor.
  - symmetry in Hw. apply map_eq_app in Hw.
    destruct Hw as (u1 & u2 & -> & <- & <-). apply M_StarS.
    + apply IHMatches1; try reflexivity. now rewrite map_app.
    + apply IHMatches2; try reflexivity. now rewrite map_app, map_rev.
Qed.

Lemma re_match_lower r s : re_match r (map lower s) = re_match r s.
Proof.
  apply bool_eq_iff. rewrite !re_match_iff. split.
  - intros (w & post & Hs & Hm). apply map_eq_app in Hs.
    destruct Hs as (u & v & -> & <- & <-). exists u, v.
    split; [reflexivity|].
    now apply (Matches_of_lower r [] (map lower u) (map lower v) Hm [] u v).
  - intros (w & post & -> & Hm). exists (map lower w), (map lower post).
    split; [apply map_app|]. now apply (Matches_lower r [] w post Hm).
Qed.

Lemma re_search_lower r s : re_search r (map lower s) = re_search r s.
Proof.
  apply bool_eq_iff. rewrite !re_search_iff. split.
  - intros (a & w & post & Hs & Hm).
    apply map_eq_app in Hs. destruct Hs as (a0 & rest & -> & <- & Hr).
    apply map_eq_app in Hr. destruct Hr as (u & v & -> & <- & <-).
    exists a0, u, v. split; [reflexivity|].
    apply (Matches_of_lower r _ _ _ Hm (rev a0) u v); try reflexivity.
    now rewrite map_rev.
  - intros (a & w & post & -> & Hm).
    exists (map lower a), (map lower w), (map lower post).
    split; [now rewrite !map_app|].
    rewrite <- map_rev. now apply (Matches_lower r (rev a) w post Hm).
Qed.

(** X14: on text whose characters are all below U+0100, which is the text
    of this file, letter case plays no part in either catalog: two such
    lines that differ only in the case of their letters are both removed by
    fix mode or both kept, and the combined scan pattern finds a match in
    both or in neither. *)
Theorem catalogs_ignore_case l1 l2 :
  map lower l1 = map lower l2 ->
  fix_match l1 = fix_match l2
  /\ re_search (join_alt LOG_PATTERNS) l1
     = re_search (join_alt LOG_PATTERNS) l2.
Proof.
  intros H. split.
  - unfold fix_match.
    induction FIX_PATTERNS as [|p ps IH]; [reflexivity|]. simpl.
    now rewrite IH, <- (re_match_lower p l1), <- (re_match_lower p l2), H.
  - now rewrite <- (re_search_lower _ l1), <- (re_search_lower _ l2), H.
Qed.

Lemma catalogs_ignore_case_witness :
  fix_match (str "Console.LOG(x)") = fix_match (str "console.log(X)")
  /\ re_search (join_alt LOG_PATTERNS) (str "Console.LOG(x)")
     = re_search (join_alt LOG_PATTERNS) (str "console.log(X)").
Proof.
  apply (catalogs_ignore_case (str "Console.LOG(x)") (str "console.log(X)")).
  vm_compute. reflexivity.
Defined.

End CaseFacts.

(** * Beyond the claims: what the fix pass reports *)

Section RemovedFacts.
Import Re CheckLogs.





End RemovedFacts.

(** * The host where operations can fail *)

Section HostFacts.
Import Re CheckLogs.

Variable H : Host.host.

Lemma bind_ext {A B} (c c' : M A) (f f' : A -> M B) s :
  c s = c' s -> (forall a s', f a s' = f' a s') ->
  bind c f s = bind c' f' s.
Proof.
  intros Hc Hf. unfold bind. rewrite Hc.
  destruct (c' s) as [[a| |] s']; [apply Hf|reflexivity|reflexivity].
Qed.

Lemma bind_ext_at {A B} (c c' : M A) (f f' : A -> M B) s :
  c s = c' s ->
  (forall a s', c' s = (Ok a, s') -> f a s' = f' a s') ->
  bind c f s = bind c' f' s.
Proof.
  intros Hc Hf. unfold bind. rewrite Hc.
  destruct (c' s) as [[a| |] s']; [now apply Hf|reflexivity|reflexivity].
Qed.

Lemma host_run_text_decodes argv s :
  Host.undecodable H argv = false ->
  Host.subprocess_run_text H argv s
  = subprocess_run (Host.git_side H) argv s.
Proof.
  intros Hd. unfold Host.subprocess_run_text, subprocess_run.
  now rewrite Hd.
Qed.

Lemma host_run_text_garbled argv s :
  git_found (Host.git_side H) = true ->
  Host.undecodable H argv = true ->
  Host.subprocess_run_text H argv s
  = (Raised UnicodeDecodeError,
     {| fs := fs s; trace := trace s ++ [Subprocess argv] |}).
Proof.
  intros Hg Hd. unfold Host.subprocess_run_text. now rewrite Hg, Hd.
Qed.


End HostFacts.

(** * Runs on a host, case by case *)

Section HostRuns.
Import Re CheckLogs.

Variable H : Host.host.

Lemma subprocess_run_fs E argv s r s' :
  subprocess_run E argv s = (Ok r, s') -> fs s' = fs s.
Proof.
  unfold subprocess_run. destruct (git_found E); [|discriminate].
  unfold bind, emit, ret. now intros [= _ <-].
Qed.

Lemma host_get_staged_files_run s :
  git_found (Host.git_side H) = true ->
  Host.undecodable H name_only = false ->
  Host.get_staged_files H s
  = (Ok (staged (Host.git_side H)),
     {| fs := fs s; trace := trace s ++ [Subprocess name_only] |}).
Proof.
  intros Hg Hd. rewrite <- (get_staged_files_run (Host.git_side H) s Hg).
  unfold Host.get_staged_files, get_staged_files.
  apply bind_ext; [|reflexivity]. now apply host_run_text_decodes.
Qed.

(** ** Scan mode *)

Lemma host_scan_files_free pattern files :
  forall has_logs s,
    Host.scan_refused H (fs s) files = false ->
    Host.scan_files H pattern files has_logs s
    = scan_files (Host.git_side H) pattern files has_logs s.
Proof.
  induction files as [|f files IH]; intros has_logs s Hr; [reflexivity|].
  unfold Host.scan_refused in Hr. cbn [existsb] in Hr.
  unfold visited, present in Hr.
  cbn [Host.scan_files scan_files].
  destruct (is_protected f); cbn [negb andb orb] in Hr; [now apply IH|].
  apply bind_ext_at; [reflexivity|]. intros here s1 Hp.
  unfold path_exists in Hp. injection Hp as <- <-.
  destruct (fs s f); cbn [negb andb orb] in Hr |- *; [|now apply IH].
  apply orb_false_iff in Hr. destruct Hr as [Hd Hr].
  apply bind_ext_at; [now apply host_run_text_decodes|].
  intros result s2 Hrun. apply subprocess_run_fs in Hrun.
  apply bind_ext_at; [reflexivity|]. intros has' s3 Hrep.
  rewrite report_lines_run in Hrep. injection Hrep as _ <-.
  apply IH. cbn [fs]. rewrite Hrun. exact Hr.
Qed.

Lemma host_scan_files_refused pattern files :
  git_found (Host.git_side H) = true ->
  forall has_logs s,
    Host.scan_refused H (fs s) files = true ->
    exists s',
      Host.scan_files H pattern files has_logs s
      = (Raised UnicodeDecodeError, s').
Proof.
  intros Hg. induction files as [|f files IH]; intros has_logs s Hr;
    [discriminate|].
  unfold Host.scan_refused in Hr. cbn [existsb] in Hr.
  unfold visited, present in Hr.
  cbn [Host.scan_files].
  destruct (is_protected f); cbn [negb andb orb] in Hr; [now apply IH|].
  unfold bind at 1, path_exists.
  destruct (fs s f); cbn [negb andb orb] in Hr |- *; [|now apply IH].
  destruct (Host.undecodable H (git_diff_cached [f])) eqn:Hd;
    cbn [orb] in Hr.
  - unfold bind at 1. rewrite host_run_text_garbled by assumption.
    eexists. reflexivity.
  - unfold bind at 1. rewrite host_run_text_decodes by exact Hd.
    unfold subprocess_run. rewrite Hg. unfold bind at 1, emit, ret.
    unfold bind at 1. rewrite report_lines_run.
    apply IH. cbn [fs]. exact Hr.
Qed.

Lemma host_check_for_logs_free files s :
  Host.scan_refused H (fs s) files = false ->
  Host.check_for_logs H files s = check_for_logs (Host.git_side H) files s.
Proof.
  intros Hr. unfold Host.check_for_logs, check_for_logs.
  now apply host_scan_files_free.
Qed.

(** ** Fix mode *)

Lemma commands_app a b : commands (a ++ b) = commands a ++ commands b.
Proof. unfold commands. apply flat_map_app. Qed.

Lemma commands_infos {A} (g : A -> message) xs :
  commands (map (fun x => Info (g x)) xs) = [].
Proof. induction xs as [|x xs IH]; [reflexivity|exact IH]. Qed.

Lemma commands_none tr :
  (forall argv, ~ In (Subprocess argv) tr) -> commands tr = [].
Proof.
  induction tr as [|e tr IH]; intros Hn; [reflexivity|].
  destruct e as [m|argv|p|p c]; cbn [commands flat_map app];
    try (apply IH; intros a Ha; apply (Hn a); now right).
  exfalso. apply (Hn argv). now left.
Qed.

Lemma host_fix_files_step f files fixed s :
  Host.refuses_fix H (fs s) f = false ->
  exists fixed' s',
    Host.fix_files H (f :: files) fixed s = Host.fix_files H files fixed' s'
    /\ fix_files (f :: files) fixed s = fix_files files fixed' s'
    /\ fs s' = fix_one f (fs s)
    /\ commands (trace s') = commands (trace s).
Proof.
  intros Hr. unfold Host.refuses_fix in Hr. unfold fix_one.
  cbn [Host.fix_files fix_files].
  destruct (is_protected f); cbn [negb andb] in Hr.
  { exists fixed, s. split; [reflexivity|]. split; [reflexivity|].
    split; reflexivity. }
  destruct (fs s f) as [c|] eqn:Hf.
  2:{ exists fixed, s.
      split; [unfold bind at 1, path_exists; now rewrite Hf|].
      split; [unfold bind at 1, path_exists; now rewrite Hf|].
      split; reflexivity. }
  destruct (Host.read_failure H f) eqn:Hread; [discriminate|].
  unfold rewritten.
  destruct (nonempty (dropped_lines c)) eqn:Hdrop.
  - destruct (Host.write_failure H f) eqn:Hwrite; [discriminate|].
    eexists. eexists. split; [|split; [|split]].
    + unfold bind at 1, path_exists. rewrite Hf. cbn [negb].
      unfold bind at 1, Host.read_text. rewrite Hf, Hread.
      unfold bind at 1. rewrite fix_lines_run. cbn [fs trace app orb].
      fold (dropped_lines c). rewrite Hdrop.
      unfold bind at 1, Host.write_text. rewrite Hwrite.
      unfold write_text. cbn [fs trace]. reflexivity.
    + unfold bind at 1, path_exists. rewrite Hf. cbn [negb].
      unfold bind at 1, read_text. rewrite Hf.
      unfold bind at 1. rewrite fix_lines_run. cbn [fs trace app orb].
      fold (dropped_lines c). rewrite Hdrop.
      unfold bind at 1, write_text. cbn [fs trace]. reflexivity.
    + reflexivity.
    + cbn [trace]. rewrite !commands_app, commands_infos.
      cbn [commands flat_map app]. now rewrite !app_nil_r.
  - eexists. eexists. split; [|split; [|split]].
    + unfold bind at 1, path_exists. rewrite Hf. cbn [negb].
      unfold bind at 1, Host.read_text. rewrite Hf, Hread.
      unfold bind at 1. rewrite fix_lines_run. cbn [fs trace app orb].
      fold (dropped_lines c). rewrite Hdrop. reflexivity.
    + unfold bind at 1, path_exists. rewrite Hf. cbn [negb].
      unfold bind at 1, read_text. rewrite Hf.
      unfold bind at 1. rewrite fix_lines_run. cbn [fs trace app orb].
      fold (dropped_lines c). rewrite Hdrop. reflexivity.
    + reflexivity.
    + cbn [trace]. rewrite !commands_app, commands_infos.
      cbn [commands flat_map app]. now rewrite !app_nil_r.
Qed.

(** A file that fix mode got past is not refused on a second visit: what
    was written back has no line to drop. *)
Lemma refuses_fix_after f t g :
  Host.refuses_fix H t f = false ->
  Host.refuses_fix H (fix_one f t) g = Host.refuses_fix H t g.
Proof.
  intros Hr. destruct (list_eq_dec ascii_dec g f) as [->|Hne].
  - rewrite Hr. unfold Host.refuses_fix in Hr |- *.
    destruct (is_protected f) eqn:Hp; [reflexivity|].
    cbn [negb andb] in Hr |- *. rewrite fix_one_same by exact Hp.
    destruct (t f) as [c|]; [|reflexivity]. cbn [option_map].
    destruct (Host.read_failure H f); [discriminate|].
    destruct (Host.write_failure H f); [|reflexivity].
    pose proof (fix_text_clean c) as Hc. unfold clean in Hc.
    apply negb_true_iff in Hc. unfold dropped_lines.
    now rewrite nonempty_filter.
  - unfold Host.refuses_fix. now rewrite fix_one_other.
Qed.

Lemma fix_refused_after f t files :
  Host.refuses_fix H t f = false ->
  Host.fix_refused H (fix_one f t) files = Host.fix_refused H t files.
Proof.
  intros Hr. unfold Host.fix_refused.
  induction files as [|g files IH]; [reflexivity|].
  cbn [existsb]. now rewrite IH, refuses_fix_after.
Qed.

Lemma host_fix_files_free files :
  forall fixed s,
    Host.fix_refused H (fs s) files = false ->
    Host.fix_files H files fixed s = fix_files files fixed s.
Proof.
  induction files as [|f files IH]; intros fixed s Hr; [reflexivity|].
  unfold Host.fix_refused in Hr. cbn [existsb] in Hr.
  apply orb_false_iff in Hr. destruct Hr as [Hf Hr].
  destruct (host_fix_files_step f files fixed s Hf)
    as (fixed' & s' & Hhost & Hplain & Hfs & _).
  rewrite Hhost, Hplain. apply IH. rewrite Hfs.
  now rewrite fix_refused_after.
Qed.

Lemma host_fix_head_refused f files fixed s :
  Host.refuses_fix H (fs s) f = true ->
  exists e s',
    Host.fix_files H (f :: files) fixed s = (Raised e, s')
    /\ commands (trace s') = commands (trace s).
Proof.
  intros Hr. unfold Host.refuses_fix in Hr. cbn [Host.fix_files].
  destruct (is_protected f); [discriminate|]. cbn [negb andb] in Hr.
  unfold bind at 1, path_exists.
  destruct (fs s f) as [c|] eqn:Hf; [|discriminate]. cbn [negb].
  unfold bind at 1, Host.read_text. rewrite Hf.
  destruct (Host.read_failure H f) as [e|].
  { exists e, s. split; reflexivity. }
  destruct (Host.write_failure H f) as [e|] eqn:Hwrite; [|discriminate].
  unfold bind at 1. rewrite fix_lines_run. cbn [fs trace app orb].
  fold (dropped_lines c). rewrite Hr.
  unfold bind at 1, Host.write_text. rewrite Hwrite.
  eexists. eexists. split; [reflexivity|].
  cbn [trace]. rewrite !commands_app, commands_infos.
  cbn [commands flat_map app]. now rewrite !app_nil_r.
Qed.

Lemma host_fix_files_refused files :
  forall fixed s,
    Host.fix_refused H (fs s) files = true ->
    exists e s',
      Host.fix_files H files fixed s = (Raised e, s')
      /\ commands (trace s') = commands (trace s).
Proof.
  induction files as [|f files IH]; intros fixed s Hr; [discriminate|].
  unfold Host.fix_refused in Hr. cbn [existsb] in Hr.
  destruct (Host.refuses_fix H (fs s) f) eqn:Hf.
  - now apply host_fix_head_refused.
  - cbn [orb] in Hr.
    destruct (host_fix_files_step f files fixed s Hf)
      as (fixed' & s' & Hhost & _ & Hfs & Hc).
    rewrite Hhost, <- Hc. apply IH. rewrite Hfs.
    now rewrite fix_refused_after.
Qed.

(** ** The whole run *)

(** On a host that refuses nothing the run comes to, the run is the run of
    [CheckLogs]. *)
Lemma host_run_free (fix_mode : bool) (t : tree) :
  (git_found (Host.git_side H) = true ->
   Host.undecodable H name_only = false
   /\ (staged (Host.git_side H) <> [] ->
       filter is_protected (staged (Host.git_side H)) = [] ->
       (if fix_mode
        then Host.fix_refused H t (staged (Host.git_side H))
        else Host.scan_refused H t (staged (Host.git_side H))) = false)) ->
  Host.run H fix_mode t = run (Host.git_side H) fix_mode t.
Proof.
  intros Hok. unfold Host.run, run.
  assert (Hmain : Host.main H fix_mode {| fs := t; trace := [] |}
                  = main (Host.git_side H) fix_mode {| fs := t; trace := [] |}).
  { unfold Host.main, main. apply bind_ext_at.
    - unfold Host.get_staged_files, get_staged_files.
      apply bind_ext; [|reflexivity].
      destruct (git_found (Host.git_side H)) eqn:Hg.
      + apply host_run_text_decodes. now apply Hok.
      + unfold Host.subprocess_run_text, subprocess_run. now rewrite Hg.
    - intros files s1 Hq.
      assert (Hg : git_found (Host.git_side H) = true).
      { assert (Hfiles : fst (get_staged_files (Host.git_side H)
                                {| fs := t; trace := [] |}) = Ok files)
          by now rewrite Hq.
        now apply staged_query in Hfiles. }
      rewrite get_staged_files_run in Hq by exact Hg.
      injection Hq as <- <-. destruct (Hok Hg) as [_ Hrest].
      destruct (staged (Host.git_side H)) as [|f0 l0] eqn:Hst;
        [reflexivity|].
      apply bind_ext_at; [reflexivity|]. intros u s2 Hb.
      destruct (filter is_protected (f0 :: l0)) as [|p0 ps] eqn:Hp.
      2:{ rewrite block_if_protected_stop in Hb by (rewrite Hp; discriminate).
          discriminate. }
      rewrite block_if_protected_pass in Hb by exact Hp.
      injection Hb as _ <-.
      specialize (Hrest ltac:(discriminate) eq_refl).
      destruct fix_mode.
      + apply bind_ext; [|reflexivity].
        unfold Host.auto_fix_logs, auto_fix_logs.
        apply bind_ext; [|reflexivity].
        now apply host_fix_files_free.
      + apply bind_ext; [|reflexivity].
        now apply host_check_for_logs_free. }
  now rewrite Hmain.
Qed.

Lemma host_run_garbled_query fix_mode t :
  git_found (Host.git_side H) = true ->
  Host.undecodable H name_only = true ->
  Host.run H fix_mode t
  = (Uncaught UnicodeDecodeError,
     {| fs := t; trace := [Subprocess name_only] |}).
Proof.
  intros Hg Hd. unfold Host.run, Host.main, Host.get_staged_files.
  unfold bind at 1. unfold bind at 1. fold name_only.
  rewrite host_run_text_garbled by assumption. reflexivity.
Qed.

Lemma host_run_refused (fix_mode : bool) (t : tree) :
  git_found (Host.git_side H) = true ->
  Host.undecodable H name_only = false ->
  staged (Host.git_side H) <> [] ->
  filter is_protected (staged (Host.git_side H)) = [] ->
  (if fix_mode
   then Host.fix_refused H t (staged (Host.git_side H))
   else Host.scan_refused H t (staged (Host.git_side H))) = true ->
  exists e s',
    Host.run H fix_mode t = (Uncaught e, s')
    /\ (fix_mode = true -> commands (trace s') = [name_only]).
Proof.
  intros Hg Hd Hne Hp Hr. unfold Host.run, Host.main. unfold bind at 1.
  rewrite host_get_staged_files_run by assumption. cbn [fs trace].
  destruct (staged (Host.git_side H)) as [|f0 l0] eqn:Hst; [congruence|].
  unfold bind at 1. rewrite block_if_protected_pass by exact Hp.
  destruct fix_mode.
  - destruct (host_fix_files_refused (f0 :: l0) []
                {| fs := t; trace := [] ++ [Subprocess name_only] |} Hr)
      as (e & s' & Hfix & Hc).
    unfold bind at 1, Host.auto_fix_logs. unfold bind at 1. rewrite Hfix.
    exists e, s'. split; [reflexivity|]. intros _. rewrite Hc. reflexivity.
  - destruct (host_scan_files_refused (join_alt LOG_PATTERNS) (f0 :: l0) Hg
                false {| fs := t; trace := [] ++ [Subprocess name_only] |} Hr)
      as (s' & Hscan).
    unfold bind at 1, Host.check_for_logs. rewrite Hscan.
    exists UnicodeDecodeError, s'. split; [reflexivity|discriminate].
Qed.

End HostRuns.

(** * The claims that need the host *)

Section HostClaims.
Import Re CheckLogs Forms.











End HostClaims.

(** * Beyond the claims: runs on a host *)

Section HostExtras.
Import Re CheckLogs.

Lemma nil_or_not {A} (l : list A) : l = [] \/ l <> [].
Proof. destruct l; [now left|right; discriminate]. Qed.


(** X10: the commands of a run in fix mode, in the order they are started.
    There is none when git cannot be started.  Otherwise the staged-file
    query is the first, and either the only one, or followed by exactly one
    [git add], whose arguments are the files the run wrote, at least one;
    the run then ends with status 0.  So fix mode asks for no diff, starts
    [git add] at most once, and stages nothing it did not rewrite. *)
Theorem fix_mode_command_list H t :
  let tr := trace (snd (Host.run H true t)) in
  (git_found (Host.git_side H) = false /\ commands tr = [])
  \/ commands tr = [name_only]
  \/ exists fixed,
       commands tr = [name_only; git_add fixed]
       /\ fixed <> []
       /\ (forall p, In p fixed <-> exists c', In (WriteText p c') tr)
       /\ fst (Host.run H true t) = Exited 0.
Proof.
  intros tr. subst tr.
  destruct (git_found (Host.git_side H)) eqn:Hg.
  2:{ left. split; [reflexivity|].
      rewrite host_run_free by (intros Hc; congruence).
      now rewrite run_git_missing by exact Hg. }
  right.
  destruct (Host.undecodable H name_only) eqn:Hd.
  { left. now rewrite host_run_garbled_query by assumption. }
  destruct (nil_or_not (filter is_protected (staged (Host.git_side H))))
    as [Hf|Hf].
  2:{ left. rewrite host_run_free
        by (intros _; split; [exact Hd|intros _ Hc; congruence]).
      rewrite run_blocked by assumption. cbn [snd trace app].
      cbn [commands flat_map app]. fold (commands
        (map (fun f => Info (Bullet f))
           (filter is_protected (staged (Host.git_side H)))
         ++ [Info MustNotBeChanged])).
      now rewrite commands_app, commands_infos. }
  destruct (nil_or_not (staged (Host.git_side H))) as [Hst|Hne].
  { left. rewrite host_run_free
      by (intros _; split; [exact Hd|intros Hc; congruence]).
    now rewrite run_nothing_staged by assumption. }
  destruct (Host.fix_refused H t (staged (Host.git_side H))) eqn:Hr.
  { left. destruct (host_run_refused H true t Hg Hd Hne Hf Hr)
      as (e & s' & -> & Hc).
    now apply Hc. }
  rewrite host_run_free by (intros _; split; [exact Hd|intros _ _; exact Hr]).
  rewrite run_fix by assumption. cbn [fst snd trace].
  assert (Hcmd : commands
            (Subprocess name_only
             :: fix_trace (staged (Host.git_side H)) t
             ++ restage_events (fixed_list (staged (Host.git_side H)) t))
          = name_only
            :: commands
                 (restage_events (fixed_list (staged (Host.git_side H)) t))).
  { change (commands ([Subprocess name_only]
              ++ fix_trace (staged (Host.git_side H)) t
              ++ restage_events (fixed_list (staged (Host.git_side H)) t))
            = [name_only]
              ++ commands
                   (restage_events
                      (fixed_list (staged (Host.git_side H)) t))).
    rewrite !commands_app.
    rewrite (commands_none (fix_trace _ _))
      by (intros argv; apply no_command_in_fix_trace).
    reflexivity. }
  rewrite Hcmd. unfold restage_events.
  destruct (fixed_list (staged (Host.git_side H)) t) as [|f l] eqn:Hfixed.
  - left. reflexivity.
  - right. exists (f :: l). split; [reflexivity|]. split; [discriminate|].
    split; [|reflexivity]. intros p.
    rewrite <- Hfixed, fixed_list_written.
    split; intros (c' & Hc); exists c'.
    + rewrite Hfixed in *. right. apply in_app_iff. now left.
    + destruct Hc as [Hc|Hc]; [discriminate|].
      apply in_app_iff in Hc. destruct Hc as [Hc|Hc]; [exact Hc|].
      destruct Hc as [Hc|[Hc|[]]]; discriminate.
Qed.

End HostExtras.
